(** * RealtimeSTT push-to-talk client: framing, checksum, session and retry logic

    A shallow embedding of [example_app/client.py] (class [PTTClient]) and
    the properties of its wire format, its checksum, its reconnect loop and
    its push-to-talk state machine.

    Conventions.
    - [bytes] is [list byte]; Python [int] is [Z]; Python [str] is [string].
    - A call that can raise returns a [result]: [Ok v] or [Raise e].
    - Module-level constants keep their names ([SAMPLE_RATE], [CHUNK_SIZES]).
    - Reads of the environment (the clock, the microphone, the keyboard, the
      network) are arguments of the functions or of the actions that drive
      the state machine. *)

From Stdlib Require Import ZArith List String Ascii Strings.Byte Bool Lia.
From Stdlib Require Import DecimalString DecimalZ DecimalPos DecimalFacts.
Import ListNotations.

Local Open Scope Z_scope.

(* ================================================================== *)
(** * Exceptions and results *)

Inductive exn : Type :=
| ValueError      (* numpy: buffer size must be a multiple of element size *)
| StructError     (* struct.error: argument out of range *)
| AttributeError  (* .get on something that is not a dict *)
| ConnectionClosed
| OtherError.

Inductive result (A : Type) : Type :=
| Ok (a : A)
| Raise (e : exn).

Arguments Ok {A} a.
Arguments Raise {A} e.

Definition bind {A B : Type} (r : result A) (k : A -> result B) : result B :=
  match r with
  | Ok a => k a
  | Raise e => Raise e
  end.

Notation "x <- r ;; k" := (bind r (fun x => k))
  (at level 61, r at next level, right associativity).

Definition is_ok {A : Type} (r : result A) : bool :=
  match r with Ok _ => true | Raise _ => false end.

(* ================================================================== *)
(** * Bytes *)

Definition bytes : Type := list byte.

Definition Z_of_byte (b : byte) : Z := Z.of_N (Byte.to_N b).

Definition byte_of_Z (z : Z) : byte :=
  match Byte.of_N (Z.to_N (z mod 256)) with
  | Some b => b
  | None => x00
  end.

(** [len(b)] as a Python int. *)
Definition len {A : Type} (l : list A) : Z := Z.of_nat (List.length l).

(* ================================================================== *)
(** * Module constants *)

Definition SAMPLE_RATE : Z := 16000.
Definition CHUNK_SIZES : list Z := [4096; 2048; 1024].

(* ================================================================== *)
(** * Checksum: [PTTClient.checksum_int16] *)

(** One little-endian int16 sample, as [np.int16] reads it on the
    little-endian hosts the client runs on. *)
Definition int16_le (lo hi : byte) : Z :=
  let u := Z_of_byte lo + 256 * Z_of_byte hi in
  if u <? 32768 then u else u - 65536.

(** [np.frombuffer(audio_bytes, dtype=np.int16)]: raises [ValueError] when
    the buffer is not a whole number of 2-byte elements. *)
Fixpoint frombuffer_int16 (audio_bytes : bytes) : result (list Z) :=
  match audio_bytes with
  | [] => Ok []
  | [_] => Raise ValueError
  | lo :: hi :: rest =>
      arr <- frombuffer_int16 rest ;;
      Ok (int16_le lo hi :: arr)
  end.

(** Two's-complement wrap of a 64-bit signed addition. *)
Definition wrap_int64 (z : Z) : Z := (z + 2 ^ 63) mod 2 ^ 64 - 2 ^ 63.

(** [np.sum(arr, dtype=np.int64)]: every element is widened to int64 and
    added to the accumulator with machine (wrapping) addition. *)
Definition np_sum_int64 (arr : list Z) : Z :=
  fold_left (fun acc x => wrap_int64 (acc + x)) arr 0.

Definition checksum_int16 (audio_bytes : bytes) : result Z :=
  arr <- frombuffer_int16 audio_bytes ;;
  Ok (Z.land (np_sum_int64 arr) 0xFFFFFFFF).

(* ================================================================== *)
(** * The metadata dictionary and [json.dumps] *)

(** The values [frame] stores in its metadata dict. *)
Inductive pyval : Type :=
| PyInt (z : Z)
| PyBool (b : bool).

(** A dict in insertion order. *)
Definition pydict : Type := list (string * pyval).

Definition dquote : ascii := ascii_of_nat 34.

(** [repr] of a Python int, which is what [json.dumps] writes for it. *)
Definition int_repr (z : Z) : string := NilZero.string_of_int (Z.to_int z).

Definition dumps_value (v : pyval) : string :=
  match v with
  | PyInt z => int_repr z
  | PyBool true => "true"
  | PyBool false => "false"
  end.

(** A dict key between double quotes.  The keys of [frame] are plain
    identifiers, for which the JSON string encoder adds nothing else. *)
Definition dumps_key (k : string) : string :=
  String dquote (k ++ String dquote EmptyString).

(** The members, with the default separators [", "] and [": "]. *)
Fixpoint dumps_items (items : pydict) : string :=
  match items with
  | [] => ""
  | (k, v) :: rest =>
      dumps_key k ++ ": " ++ dumps_value v ++
      match rest with
      | [] => ""
      | _ :: _ => ", " ++ dumps_items rest
      end
  end.

Definition json_dumps (d : pydict) : string :=
  "{" ++ dumps_items d ++ "}".

(** [str.encode("utf-8")] on the ASCII text [json.dumps] returns: one byte
    per character. *)
Definition encode_utf8 (s : string) : bytes := list_byte_of_string s.

(* ================================================================== *)
(** * [struct.pack("<I", n)] *)

Definition struct_pack_I (n : Z) : result bytes :=
  if (0 <=? n) && (n <? 2 ^ 32)
  then Ok [byte_of_Z n; byte_of_Z (n / 2 ^ 8);
           byte_of_Z (n / 2 ^ 16); byte_of_Z (n / 2 ^ 24)]
  else Raise StructError.

(* ================================================================== *)
(** * Framing: [PTTClient.frame] *)

(** The dict literal of [frame].  [sample_rate] is the value of the global
    [SAMPLE_RATE] and [now_ms] the value of [int(time.time() * 1000)] at the
    call.  Python evaluates the entries in order, so the checksum (the only
    entry that can raise) is computed before the dict exists. *)
Definition frame_meta (sample_rate now_ms : Z) (audio_bytes : bytes)
  : result pydict :=
  checksum <- checksum_int16 audio_bytes ;;
  Ok [ ("sampleRate"%string, PyInt sample_rate);
       ("dataLength"%string, PyInt (len audio_bytes / 2));
       ("checksum"%string, PyInt checksum);
       ("timestamp"%string, PyInt now_ms);
       ("server_sent_to_stt"%string, PyBool true) ].

Definition frame (sample_rate now_ms : Z) (audio_bytes : bytes)
  : result bytes :=
  meta <- frame_meta sample_rate now_ms audio_bytes ;;
  let meta_json := encode_utf8 (json_dumps meta) in
  meta_len <- struct_pack_I (len meta_json) ;;
  Ok (meta_len ++ meta_json ++ audio_bytes).

(* ================================================================== *)
(** * A reference decoder

    The client never decodes its own frames; the decoder below is the
    receiving side of the layout
    [4 bytes LE uint32 metadataLength][metadata][audio], written from the
    wire format's description, against which [frame] is checked. *)

Definition unpack_I (b0 b1 b2 b3 : byte) : Z :=
  Z_of_byte b0 + 2 ^ 8 * Z_of_byte b1
  + 2 ^ 16 * Z_of_byte b2 + 2 ^ 24 * Z_of_byte b3.

(** Cut a frame at the boundary the length prefix announces. *)
Definition split_frame (f : bytes) : option (bytes * bytes) :=
  match f with
  | b0 :: b1 :: b2 :: b3 :: rest =>
      let n := Z.to_nat (unpack_I b0 b1 b2 b3) in
      if (n <=? List.length rest)%nat
      then Some (firstn n rest, skipn n rest)
      else None
  | _ => None
  end.

Definition is_digit (c : ascii) : bool :=
  ((48 <=? nat_of_ascii c) && (nat_of_ascii c <=? 57))%nat.

Definition is_ws (c : ascii) : bool :=
  match nat_of_ascii c with
  | 32%nat | 9%nat | 10%nat | 13%nat => true
  | _ => false
  end.

Fixpoint skip_ws (s : string) : string :=
  match s with
  | String c r => if is_ws c then skip_ws r else s
  | EmptyString => s
  end.

Fixpoint span_digits (s : string) : string * string :=
  match s with
  | String c r =>
      if is_digit c
      then let (d, r') := span_digits r in (String c d, r')
      else (EmptyString, s)
  | EmptyString => (EmptyString, EmptyString)
  end.

(** The characters of a key up to its closing quote; escapes are refused. *)
Fixpoint read_key (s : string) : option (string * string) :=
  match s with
  | EmptyString => None
  | String c r =>
      if Ascii.eqb c dquote then Some (EmptyString, r)
      else if Ascii.eqb c "\" then None
      else match read_key r with
           | Some (k, r') => Some (String c k, r')
           | None => None
           end
  end.

Definition parse_int (s : string) : option (pyval * string) :=
  match s with
  | String "-" r =>
      let (d, r') := span_digits r in
      match NilZero.uint_of_string d with
      | Some u => Some (PyInt (Z.of_int (Decimal.Neg u)), r')
      | None => None
      end
  | _ =>
      let (d, r') := span_digits s in
      match NilZero.uint_of_string d with
      | Some u => Some (PyInt (Z.of_int (Decimal.Pos u)), r')
      | None => None
      end
  end.

Definition parse_value (s : string) : option (pyval * string) :=
  match s with
  | String "t" (String "r" (String "u" (String "e" r))) =>
      Some (PyBool true, r)
  | String "f" (String "a" (String "l" (String "s" (String "e" r)))) =>
      Some (PyBool false, r)
  | _ => parse_int s
  end.

(** The members of a flat object, after the opening brace. *)
Fixpoint parse_members (fuel : nat) (s : string) : option pydict :=
  match fuel with
  | O => None
  | S fuel' =>
      match skip_ws s with
      | String c r =>
          if Ascii.eqb c dquote then
            match read_key r with
            | Some (k, r1) =>
                match skip_ws r1 with
                | String ":" r2 =>
                    match parse_value (skip_ws r2) with
                    | Some (v, r3) =>
                        match skip_ws r3 with
                        | String "," r4 =>
                            option_map (cons (k, v)) (parse_members fuel' r4)
                        | String "}" r4 =>
                            match skip_ws r4 with
                            | EmptyString => Some [(k, v)]
                            | _ => None
                            end
                        | _ => None
                        end
                    | None => None
                    end
                | _ => None
                end
            | None => None
            end
          else None
      | EmptyString => None
      end
  end.

Definition parse_object (s : string) : option pydict :=
  match skip_ws s with
  | String "{" r =>
      match skip_ws r with
      | String "}" r' =>
          match skip_ws r' with EmptyString => Some [] | _ => None end
      | _ => parse_members (String.length r) r
      end
  | _ => None
  end.

Definition decode_utf8_ascii (b : bytes) : string := string_of_list_byte b.

(** What a receiver gets out of a frame: the metadata map and the audio. *)
Definition reference_decode (f : bytes) : option (pydict * bytes) :=
  match split_frame f with
  | Some (meta_json, audio) =>
      match parse_object (decode_utf8_ascii meta_json) with
      | Some meta => Some (meta, audio)
      | None => None
      end
  | None => None
  end.

Fixpoint dict_get (d : pydict) (k : string) : option pyval :=
  match d with
  | [] => None
  | (k', v) :: rest => if String.eqb k' k then Some v else dict_get rest k
  end.

Definition dict_keys (d : pydict) : list string := map fst d.

(* ================================================================== *)
(** * Inbound messages: what [json.loads] returns *)

#[warnings="-register-all"]
Inductive json : Type :=
| JNull
| JBool (b : bool)
| JNum (text : string)
| JStr (s : string)
| JArr (items : list json)
| JObj (members : list (string * json)).

Fixpoint members_get (m : list (string * json)) (k : string) : option json :=
  match m with
  | [] => None
  | (k', v) :: rest => if String.eqb k' k then Some v else members_get rest k
  end.

(** [data.get(k, default)]; on anything but a dict the attribute [get] does
    not exist. *)
Definition py_get (data : json) (k : string) (default : json) : result json :=
  match data with
  | JObj m =>
      match members_get m k with
      | Some v => Ok v
      | None => Ok default
      end
  | _ => Raise AttributeError
  end.

(** [v == s] for a string literal [s]. *)
Definition eq_str (v : json) (s : string) : bool :=
  match v with
  | JStr s' => String.eqb s' s
  | _ => false
  end.

(** The progress kinds the receiver does not print. *)
Definition SUPPRESSED_TYPES : list string :=
  [ "realtime"; "vad_detect_start"; "vad_detect_stop"; "transcription_start";
    "start_turn_detection"; "stop_turn_detection"; "wakeword_detected";
    "wakeword_detection_start"; "wakeword_detection_end" ]%string.

(* ================================================================== *)
(** * The client object and what it does to the outside *)

Record client : Type := mkClient {
  running : bool;
  stop_threads : bool;
  chunk_index : nat;
  current_chunk : Z;
  ptt_active : bool;
  toggle_mode : bool;
  chunks_sent : Z;
  stream : bool;       (* [self.stream] is set *)
  ws : bool;           (* [self.ws] is set *)
  control_ws : bool;   (* [self.control_ws] is set *)
  loop : bool          (* [self.loop] is set *)
}.

Definition set_running (b : bool) (c : client) : client :=
  mkClient b (stop_threads c) (chunk_index c) (current_chunk c) (ptt_active c)
    (toggle_mode c) (chunks_sent c) (stream c) (ws c) (control_ws c) (loop c).

Definition set_stop_threads (b : bool) (c : client) : client :=
  mkClient (running c) b (chunk_index c) (current_chunk c) (ptt_active c)
    (toggle_mode c) (chunks_sent c) (stream c) (ws c) (control_ws c) (loop c).

Definition set_chunk (i : nat) (size : Z) (c : client) : client :=
  mkClient (running c) (stop_threads c) i size (ptt_active c)
    (toggle_mode c) (chunks_sent c) (stream c) (ws c) (control_ws c) (loop c).

Definition set_ptt_active (b : bool) (c : client) : client :=
  mkClient (running c) (stop_threads c) (chunk_index c) (current_chunk c) b
    (toggle_mode c) (chunks_sent c) (stream c) (ws c) (control_ws c) (loop c).

Definition set_chunks_sent (n : Z) (c : client) : client :=
  mkClient (running c) (stop_threads c) (chunk_index c) (current_chunk c)
    (ptt_active c) (toggle_mode c) n (stream c) (ws c) (control_ws c) (loop c).

Definition set_stream (b : bool) (c : client) : client :=
  mkClient (running c) (stop_threads c) (chunk_index c) (current_chunk c)
    (ptt_active c) (toggle_mode c) (chunks_sent c) b (ws c) (control_ws c)
    (loop c).

Definition set_ws (b : bool) (c : client) : client :=
  mkClient (running c) (stop_threads c) (chunk_index c) (current_chunk c)
    (ptt_active c) (toggle_mode c) (chunks_sent c) (stream c) b (control_ws c)
    (loop c).

Definition set_control_ws (b : bool) (c : client) : client :=
  mkClient (running c) (stop_threads c) (chunk_index c) (current_chunk c)
    (ptt_active c) (toggle_mode c) (chunks_sent c) (stream c) (ws c) b
    (loop c).

Definition set_loop (b : bool) (c : client) : client :=
  mkClient (running c) (stop_threads c) (chunk_index c) (current_chunk c)
    (ptt_active c) (toggle_mode c) (chunks_sent c) (stream c) (ws c)
    (control_ws c) b.

(** [PTTClient.__init__]; [toggle] is what the environment probes decide. *)
Definition init_client (toggle : bool) : client :=
  mkClient false false 0 (nth 0 CHUNK_SIZES 0) false toggle 0
    false false false false.

(** The lines the client prints. *)
Inductive log : Type :=
| LogUsingChunk (size : Z)
| LogReducingChunk (size : Z)
| LogReconnecting (backoff : Z) (attempt : nat)
| LogSessionError
| LogKeyboardInterrupt
| LogRejected (message : json)
| LogFinal (text : json)
| LogRecordingStart
| LogRecordingStop
| LogMessage (data : json)
| LogConnectionClosed
| LogReceiverError
| LogPttOn
| LogPttOff
| LogMicError
| LogAudioSendError.

(** What the client does to the outside, in the order it does it. *)
Inductive event : Type :=
| Print (line : log)
| Submit (framed : bytes)
    (* [run_coroutine_threadsafe(self.ws.send(framed), self.loop)] *)
| StopAndClear
    (* [run_coroutine_threadsafe(self.control_stop_and_clear(), self.loop)] *)
| OpenStream (frames_per_buffer : Z)
| CloseStream
| Sleep (seconds : Z).
    (* [await asyncio.sleep(backoff)] in [run] *)

(** The two commands of [control_stop_and_clear], sent when the coroutine
    runs and the control channel is there. *)
Definition control_stop_and_clear (c : client) : list string :=
  if control_ws c then ["stop"; "clear_audio_queue"]%string else [].

(* ================================================================== *)
(** * Audio stream *)

Definition open_stream (open_ok : bool) (c : client)
  : result (client * list event) :=
  if stream c then Ok (c, [])
  else if open_ok
       then Ok (set_stream true c, [OpenStream (current_chunk c)])
       else Raise OtherError.

Definition close_stream (c : client) : client * list event :=
  if stream c then (set_stream false c, [CloseStream]) else (c, []).

(* ================================================================== *)
(** * Threads of one session

    The receiver runs on the event loop, the capture loop [audio_worker]
    and the key listener on threads of their own.  The state machine below
    interleaves them at their blocking calls: one action is what one of them
    does between two such calls. *)

Inductive key : Type :=
| KeySpace
| KeyChar (ch : ascii)
| KeyOther.

(** The next item of [async for msg in self.ws]. *)
Inductive inbound : Type :=
| Message (msg : string)
| ClosedOk        (* the iteration ends *)
| ClosedError     (* [ConnectionClosed] is raised *)
| RecvRaises.     (* any other exception *)

Inductive read_outcome : Type :=
| ReadOk (audio_bytes : bytes)
| ReadRaises.

Inductive worker_pc : Type :=
| AtLoopTop     (* about to test the [while] condition *)
| InRead        (* blocked in [self.stream.read] *)
| WorkerDone.   (* the thread has left [audio_worker] *)

Inductive action : Type :=
| KeyPress (k : key)
| KeyRelease (k : key)
| StdinChar (ch : ascii)
| WorkerTop (t1 t2 : Z) (open_ok : bool)
    (* from the [while] test to the next blocking call; [t1], [t2] are the
       clock readings of the tail frames, [open_ok] the fate of [p.open] *)
| WorkerRead (r : read_outcome) (t : Z)
    (* [self.stream.read] returns; the rest of that pass of the loop *)
| Recv (m : inbound)
| MainPoll.
    (* one test of [while self.running] in [one_session] *)

Record sys : Type := mkSys {
  cl : client;
  was_active : bool;        (* local of [audio_worker] *)
  worker : worker_pc;
  receiver_alive : bool;
  stdin_alive : bool        (* [toggle_stdin_loop] has not left its loop *)
}.

Definition with_cl (c : client) (s : sys) : sys :=
  mkSys c (was_active s) (worker s) (receiver_alive s) (stdin_alive s).

Section Client.

(** [json.loads]: [None] when it raises. *)
Variable json_loads : string -> option json.

(** ** [PTTClient.receiver] *)

(** The body of the loop on a parsed message: the new client, whether the
    loop goes on, and what is printed. *)
Definition receiver_classify (c : client) (data : json)
  : result (client * bool * list event) :=
  ty <- py_get data "type" JNull ;;
  err <- py_get data "error" JNull ;;
  if eq_str ty "error" && eq_str err "data_corruption" then
    message <- py_get data "message" (JStr "") ;;
    Ok (set_running false c, false, [Print (LogRejected message)])
  else if eq_str ty "fullSentence" then
    text <- py_get data "text" (JStr "") ;;
    Ok (c, true, [Print (LogFinal text)])
  else if eq_str ty "recording_start" then
    Ok (c, true, [Print LogRecordingStart])
  else if eq_str ty "recording_stop" then
    Ok (c, true, [Print LogRecordingStop])
  else if existsb (eq_str ty) SUPPRESSED_TYPES then
    Ok (c, true, [])
  else
    Ok (c, true, [Print (LogMessage data)]).

Definition receiver_step (c : client) (m : inbound)
  : client * bool * list event :=
  match m with
  | Message msg =>
      match json_loads msg with
      | None => (c, true, [])                      (* [continue] *)
      | Some data =>
          match receiver_classify c data with
          | Ok r => r
          | Raise _ =>
              (set_running false c, false, [Print LogReceiverError])
          end
      end
  | ClosedOk => (c, false, [])
  | ClosedError => (set_running false c, false, [Print LogConnectionClosed])
  | RecvRaises => (set_running false c, false, [Print LogReceiverError])
  end.

(** [receiver] on a whole stream of inbound items. *)
Fixpoint receiver (c : client) (inbox : list inbound) : client * list event :=
  match inbox with
  | [] => (c, [])
  | m :: rest =>
      let '(c1, continue, ev1) := receiver_step c m in
      if continue
      then let (c2, ev2) := receiver c1 rest in (c2, ev1 ++ ev2)
      else (c1, ev1)
  end.

(** ** [PTTClient.audio_worker] *)

Definition silent (c : client) : bytes :=
  repeat x00 (Z.to_nat (current_chunk c * 2)).

(** The two tail frames; an exception leaves the loop, what was submitted
    stays submitted. *)
Definition tail_frames (c : client) (t1 t2 : Z) : list event :=
  if ws c then
    match frame SAMPLE_RATE t1 (silent c) with
    | Raise _ => []
    | Ok framed1 =>
        if loop c then
          Submit framed1 ::
          match frame SAMPLE_RATE t2 (silent c) with
          | Raise _ => []
          | Ok framed2 => [Submit framed2]
          end
        else []
    end
  else [].

Definition worker_top (c : client) (was : bool) (t1 t2 : Z) (open_ok : bool)
  : client * bool * worker_pc * list event :=
  if stop_threads c || negb (running c) then (c, was, WorkerDone, [])
  else if negb (ptt_active c) then
    if was then
      let tail := tail_frames c t1 t2 in
      let finalize := if loop c then [StopAndClear] else [] in
      let (c1, closed) := close_stream c in
      (c1, false, AtLoopTop, tail ++ finalize ++ closed)
    else (c, was, AtLoopTop, [])
  else if negb was then
    match open_stream open_ok c with
    | Ok (c1, opened) => (c1, true, InRead, opened)
    | Raise _ => (set_running false c, was, WorkerDone, [Print LogMicError])
    end
  else (c, was, InRead, []).

Definition worker_read (c : client) (r : read_outcome) (t : Z)
  : client * list event :=
  match r with
  | ReadRaises => (c, [Print LogAudioSendError])
  | ReadOk audio_bytes =>
      match frame SAMPLE_RATE t audio_bytes with
      | Raise _ => (c, [Print LogAudioSendError])
      | Ok framed =>
          if ws c && running c then
            if loop c
            then (set_chunks_sent (chunks_sent c + 1) c, [Submit framed])
            else (c, [Print LogAudioSendError])
          else (c, [])
      end
  end.

(** ** The key handlers of [start_hotkeys] and [toggle_stdin_loop] *)

Definition is_q (ch : ascii) : bool :=
  Ascii.eqb ch "q" || Ascii.eqb ch "Q".

Definition on_press (c : client) (k : key) : client * list event :=
  match k with
  | KeySpace =>
      if ptt_active c then (c, [])
      else (set_ptt_active true c, [Print LogPttOn])
  | KeyChar ch => if is_q ch then (set_running false c, []) else (c, [])
  | KeyOther => (c, [])
  end.

Definition on_release (c : client) (k : key) : client * list event :=
  match k with
  | KeySpace =>
      if ptt_active c then
        (set_ptt_active false c,
         Print LogPttOff :: if loop c then [StopAndClear] else [])
      else (c, [])
  | _ => (c, [])
  end.

(** One character read by [toggle_stdin_loop]: the new client, whether the
    loop goes on, and what is printed. *)
Definition toggle_stdin (c : client) (ch : ascii)
  : client * bool * list event :=
  if Ascii.eqb ch " " then
    let c1 := set_ptt_active (negb (ptt_active c)) c in
    (c1, true, [Print (if ptt_active c1 then LogPttOn else LogPttOff)])
  else if is_q ch then (set_running false c, false, [])
  else (c, true, []).

(** ** One step of a session *)

Definition step (s : sys) (a : action) : sys * list event :=
  match a with
  | KeyPress k =>
      if toggle_mode (cl s) then (s, [])
      else let (c1, ev) := on_press (cl s) k in (with_cl c1 s, ev)
  | KeyRelease k =>
      if toggle_mode (cl s) then (s, [])
      else let (c1, ev) := on_release (cl s) k in (with_cl c1 s, ev)
  | StdinChar ch =>
      if toggle_mode (cl s) && stdin_alive s && negb (stop_threads (cl s))
      then let '(c1, continue, ev) := toggle_stdin (cl s) ch in
           (mkSys c1 (was_active s) (worker s) (receiver_alive s) continue, ev)
      else (s, [])
  | WorkerTop t1 t2 open_ok =>
      match worker s with
      | AtLoopTop =>
          let '(c1, was, pc, ev) :=
            worker_top (cl s) (was_active s) t1 t2 open_ok in
          (mkSys c1 was pc (receiver_alive s) (stdin_alive s), ev)
      | _ => (s, [])
      end
  | WorkerRead r t =>
      match worker s with
      | InRead =>
          let (c1, ev) := worker_read (cl s) r t in
          (mkSys c1 (was_active s) AtLoopTop (receiver_alive s)
             (stdin_alive s), ev)
      | _ => (s, [])
      end
  | Recv m =>
      if receiver_alive s then
        let '(c1, continue, ev) := receiver_step (cl s) m in
        (mkSys c1 (was_active s) (worker s) continue (stdin_alive s), ev)
      else (s, [])
  | MainPoll => (s, [])
  end.

Fixpoint exec (s : sys) (acts : list action) : sys * list event :=
  match acts with
  | [] => (s, [])
  | a :: rest =>
      let (s1, ev1) := step s a in
      let (s2, ev2) := exec s1 rest in
      (s2, ev1 ++ ev2)
  end.

(** ** [PTTClient.one_session] *)

Inductive session_end : Type :=
| Returned       (* [one_session] returns *)
| Raised         (* it raises an [Exception] *)
| Interrupted.   (* [KeyboardInterrupt] *)

(** The wait loop [while self.running: await asyncio.sleep(0.05)] against a
    schedule of the other threads' actions.  It leaves when a poll finds
    [running] false; a schedule that ends first is a [KeyboardInterrupt]
    during the wait. *)
Fixpoint wait_loop (s : sys) (acts : list action)
  : sys * list event * session_end :=
  match acts with
  | [] => (s, [], Interrupted)
  | MainPoll :: rest =>
      if running (cl s) then wait_loop s rest else (s, [], Returned)
  | a :: rest =>
      let (s1, ev1) := step s a in
      let '(s2, ev2, out) := wait_loop s1 rest in
      (s2, ev1 ++ ev2, out)
  end.

(** What the network does to one session and what happens during it. *)
Record schedule : Type := mkSchedule {
  connect_ok : bool;    (* [websockets.connect(DATA_URL)] succeeds *)
  control_ok : bool;    (* [websockets.connect(CONTROL_URL)] succeeds *)
  actions : list action
}.

(** The [finally] block. *)
Definition session_cleanup (c : client) : client * list event :=
  close_stream (set_ws false (set_control_ws false c)).

(** The threads as [one_session] starts them, once both connects are done:
    the receiver listens, the capture loop is at its first test. *)
Definition session_start (c : client) (alive : bool) (sch : schedule) : sys :=
  let c0 := set_loop true c in
  let c1 := set_running true
              (set_control_ws (control_ok sch) (set_ws true c0)) in
  mkSys c1 false AtLoopTop true alive.

Definition one_session (c : client) (alive : bool) (sch : schedule)
  : client * bool * list event * session_end :=
  if connect_ok sch then
    let '(s, ev, out) :=
      wait_loop (session_start c alive sch) (actions sch) in
    let (c2, closed) := session_cleanup (cl s) in
    (c2, stdin_alive s, ev ++ closed, out)
  else (set_ws false (set_loop true c), alive, [], Raised).

(** ** [PTTClient.run] *)

Definition max_retries : nat := 6.
Definition base_backoff : Z := 1.

(** The chunk-size step of [run] after a session. *)
Definition reduce_chunk (c : client) : client * list event :=
  if (chunk_index c <? List.length CHUNK_SIZES - 1)%nat then
    let i := S (chunk_index c) in
    let size := nth i CHUNK_SIZES 0 in
    (set_chunk i size c, [Print (LogReducingChunk size)])
  else (c, []).

(** [base_backoff * (2 ** (retries - 1))], in seconds; [retries >= 1]
    here, so the power is a whole number. *)
Definition backoff_of (retries : nat) : Z :=
  base_backoff * 2 ^ (Z.of_nat retries - 1).

(** The [while retries <= max_retries] loop.  [fuel] bounds the number of
    passes; [None] is a loop that has not finished within it. *)
Fixpoint run_loop (fuel : nat) (c : client) (alive : bool) (retries : nat)
  (plan : nat -> schedule) : option (client * list event) :=
  match fuel with
  | O => None
  | S fuel' =>
      if (retries <=? max_retries)%nat then
        let '(c1, alive1, ev, out) := one_session c alive (plan retries) in
        let started := Print (LogUsingChunk (current_chunk c)) in
        match out with
        | Interrupted =>
            Some (c1, started :: ev ++ [Print LogKeyboardInterrupt])
        | _ =>
            let caught :=
              match out with Raised => [Print LogSessionError] | _ => [] end in
            let retries1 := S retries in
            let (c2, reduced) := reduce_chunk c1 in
            let backoff := backoff_of retries1 in
            match run_loop fuel' c2 alive1 retries1 plan with
            | Some (c3, ev3) =>
                Some (c3,
                      started :: ev ++ caught ++ reduced ++
                      [Print (LogReconnecting backoff retries1);
                       Sleep backoff] ++ ev3)
            | None => None
            end
        end
      else Some (c, [])
  end.

Definition run (fuel : nat) (toggle : bool) (plan : nat -> schedule)
  : option (client * list event) :=
  match run_loop fuel (init_client toggle) true 0 plan with
  | Some (c, ev) =>
      let (c1, closed) := close_stream (set_stop_threads true c) in
      Some (c1, ev ++ closed)
  | None => None
  end.

End Client.

(** ** Reading a trace *)

Definition sleeps (evs : list event) : list Z :=
  flat_map (fun e => match e with Sleep z => [z] | _ => [] end) evs.

(** The chunk size each session was started with. *)
Definition session_chunks (evs : list event) : list Z :=
  flat_map (fun e => match e with Print (LogUsingChunk z) => [z] | _ => [] end)
    evs.

Definition submitted (evs : list event) : list bytes :=
  flat_map (fun e => match e with Submit f => [f] | _ => [] end) evs.

Definition count_finalize (evs : list event) : nat :=
  List.length
    (filter (fun e => match e with StopAndClear => true | _ => false end) evs).

(* ================================================================== *)
(** * Properties of the checksum and of the frame codec *)

Example frame_small :
  reference_decode
    (match frame 16000 1700000000000 [x01; x00; xff; xff] with
     | Ok f => f | Raise _ => [] end)
  = Some ([ ("sampleRate"%string, PyInt 16000);
            ("dataLength"%string, PyInt 2);
            ("checksum"%string, PyInt 0);
            ("timestamp"%string, PyInt 1700000000000);
            ("server_sent_to_stt"%string, PyBool true) ],
          [x01; x00; xff; xff]).
Proof. vm_compute. reflexivity. Qed.

(** ** Bytes and little-endian words *)

Lemma Z_of_byte_range (b : byte) : 0 <= Z_of_byte b < 256.
Proof.
  unfold Z_of_byte. pose proof (Byte.to_N_bounded b). lia.
Qed.

Lemma Z_of_byte_of_Z (z : Z) : Z_of_byte (byte_of_Z z) = z mod 256.
Proof.
  unfold Z_of_byte, byte_of_Z.
  assert (Hr : 0 <= z mod 256 < 256) by (apply Z.mod_pos_bound; lia).
  destruct (Byte.of_N (Z.to_N (z mod 256))) as [b|] eqn:E.
  - apply Byte.to_of_N in E. rewrite E. lia.
  - apply Byte.of_N_None_iff in E. lia.
Qed.

Lemma unpack_pack_I (n : Z) :
  0 <= n < 2 ^ 32 ->
  unpack_I (byte_of_Z n) (byte_of_Z (n / 2 ^ 8))
           (byte_of_Z (n / 2 ^ 16)) (byte_of_Z (n / 2 ^ 24)) = n.
Proof.
  intros Hn. unfold unpack_I. rewrite !Z_of_byte_of_Z.
  change (2 ^ 8) with 256. change (2 ^ 16) with 65536.
  change (2 ^ 24) with 16777216. change (2 ^ 32) with 4294967296 in Hn.
  pose proof (Z.div_mod n 256 ltac:(lia)).
  pose proof (Z.div_mod n 65536 ltac:(lia)).
  pose proof (Z.div_mod n 16777216 ltac:(lia)).
  pose proof (Z.div_mod (n / 256) 256 ltac:(lia)).
  pose proof (Z.div_mod (n / 65536) 256 ltac:(lia)).
  pose proof (Z.div_mod (n / 16777216) 256 ltac:(lia)).
  assert (n / 256 / 256 = n / 65536)
    by (rewrite Z.div_div by lia; reflexivity).
  assert (n / 65536 / 256 = n / 16777216)
    by (rewrite Z.div_div by lia; reflexivity).
  assert (n / 16777216 / 256 = 0)
    by (rewrite Z.div_div by lia; apply Z.div_small; lia).
  lia.
Qed.

(** ** The samples and their sum *)

(** The samples of a buffer, two bytes at a time. *)
Fixpoint samples16 (a : bytes) : list Z :=
  match a with
  | lo :: hi :: rest => int16_le lo hi :: samples16 rest
  | _ => []
  end.

Definition sum_Z (l : list Z) : Z := fold_right Z.add 0 l.

(** The checksum as the description gives it: the sum of the signed 16-bit
    little-endian samples, masked to its low 32 bits. *)
Definition checksum16_spec (a : bytes) : Z :=
  Z.land (sum_Z (samples16 a)) 0xFFFFFFFF.

Lemma int16_le_range (lo hi : byte) : -32768 <= int16_le lo hi < 32768.
Proof.
  unfold int16_le. pose proof (Z_of_byte_range lo).
  pose proof (Z_of_byte_range hi).
  destruct (Z.ltb_spec (Z_of_byte lo + 256 * Z_of_byte hi) 32768); lia.
Qed.

Lemma even_length_ind (A : Type) (P : list A -> Prop) :
  P [] ->
  (forall x y l, Nat.even (List.length l) = true -> P l -> P (x :: y :: l)) ->
  forall l, Nat.even (List.length l) = true -> P l.
Proof.
  intros H0 H2. fix IH 1. intros [|x [|y l]] He.
  - exact H0.
  - discriminate He.
  - apply H2; [exact He | apply IH; exact He].
Qed.

Lemma frombuffer_even (a : bytes) :
  Nat.even (List.length a) = true -> frombuffer_int16 a = Ok (samples16 a).
Proof.
  revert a.
  apply (even_length_ind _ (fun a => frombuffer_int16 a = Ok (samples16 a))).
  - reflexivity.
  - intros x y l _ IH. cbn [frombuffer_int16 samples16].
    rewrite IH. reflexivity.
Qed.

Lemma frombuffer_odd (a : bytes) :
  Nat.even (List.length a) = false -> frombuffer_int16 a = Raise ValueError.
Proof.
  revert a. fix IH 1. intros [|x [|y l]] Ho.
  - discriminate Ho.
  - reflexivity.
  - cbn [frombuffer_int16]. rewrite (IH l Ho). reflexivity.
Qed.

Lemma wrap_int64_mod (z : Z) : wrap_int64 z mod 2 ^ 64 = z mod 2 ^ 64.
Proof.
  unfold wrap_int64.
  rewrite Zminus_mod, Zmod_mod, <- Zminus_mod.
  f_equal. lia.
Qed.

Lemma wrap_int64_congr (x y : Z) :
  x mod 2 ^ 64 = y mod 2 ^ 64 -> wrap_int64 x = wrap_int64 y.
Proof.
  intros H. unfold wrap_int64.
  rewrite (Zplus_mod x), H, <- Zplus_mod. reflexivity.
Qed.

Lemma wrap_int64_add_l (x y : Z) : wrap_int64 (wrap_int64 x + y) = wrap_int64 (x + y).
Proof.
  apply wrap_int64_congr.
  rewrite Zplus_mod, wrap_int64_mod, <- Zplus_mod. reflexivity.
Qed.

Lemma wrap_int64_small (z : Z) : - 2 ^ 63 <= z < 2 ^ 63 -> wrap_int64 z = z.
Proof.
  intros H. unfold wrap_int64. rewrite Z.mod_small; lia.
Qed.

Lemma np_sum_fold (arr : list Z) (x : Z) :
  fold_left (fun acc y => wrap_int64 (acc + y)) arr (wrap_int64 x)
  = wrap_int64 (x + sum_Z arr).
Proof.
  revert x. induction arr as [|y arr IH]; intros x.
  - cbn. f_equal. lia.
  - change (sum_Z (y :: arr)) with (y + sum_Z arr). cbn [fold_left].
    rewrite wrap_int64_add_l, IH. f_equal. lia.
Qed.

Lemma np_sum_int64_wrap (arr : list Z) :
  np_sum_int64 arr = wrap_int64 (sum_Z arr).
Proof.
  unfold np_sum_int64.
  change 0 with (wrap_int64 0) at 1.
  rewrite np_sum_fold. reflexivity.
Qed.

Lemma land_mask32 (z : Z) : Z.land z 0xFFFFFFFF = z mod 2 ^ 32.
Proof.
  change 0xFFFFFFFF with (Z.ones 32). apply Z.land_ones. lia.
Qed.

Lemma wrap_int64_mod32 (z : Z) : wrap_int64 z mod 2 ^ 32 = z mod 2 ^ 32.
Proof.
  rewrite <- (Z.mod_mod_divide (wrap_int64 z) (2 ^ 64) (2 ^ 32)).
  - rewrite wrap_int64_mod. apply Z.mod_mod_divide.
    exists (2 ^ 32). reflexivity.
  - exists (2 ^ 32). reflexivity.
Qed.

Lemma checksum_int16_even (a : bytes) :
  Nat.even (List.length a) = true ->
  checksum_int16 a = Ok (checksum16_spec a).
Proof.
  intros He. unfold checksum_int16, checksum16_spec.
  rewrite (frombuffer_even a He). cbn [bind].
  rewrite np_sum_int64_wrap, !land_mask32, wrap_int64_mod32. reflexivity.
Qed.

Lemma checksum16_spec_range (a : bytes) : 0 <= checksum16_spec a < 2 ^ 32.
Proof.
  unfold checksum16_spec. rewrite land_mask32.
  apply Z.mod_pos_bound. lia.
Qed.

Lemma samples16_range (a : bytes) :
  Forall (fun s => -32768 <= s < 32768) (samples16 a).
Proof.
  revert a. fix IH 1. intros [|x [|y l]]; cbn [samples16]; constructor.
  - apply int16_le_range.
  - apply IH.
Qed.

(** ** The text of an integer *)

Lemma string_length_app (s1 s2 : string) :
  String.length (s1 ++ s2) = (String.length s1 + String.length s2)%nat.
Proof.
  induction s1 as [|c s1 IH]; cbn; [reflexivity | now rewrite IH].
Qed.

Lemma length_list_byte_of_string (s : string) :
  List.length (list_byte_of_string s) = String.length s.
Proof.
  unfold list_byte_of_string. rewrite length_map.
  induction s as [|c s IH]; cbn; [reflexivity | now rewrite IH].
Qed.

Lemma little_double_digits (d : Decimal.uint) :
  (Decimal.nb_digits (Decimal.Little.double d) <= S (Decimal.nb_digits d)
   /\ Decimal.nb_digits (Decimal.Little.succ_double d)
      <= S (Decimal.nb_digits d))%nat.
Proof.
  induction d as [|d [IH1 IH2]|d [IH1 IH2]|d [IH1 IH2]|d [IH1 IH2]
                  |d [IH1 IH2]|d [IH1 IH2]|d [IH1 IH2]|d [IH1 IH2]
                  |d [IH1 IH2]|d [IH1 IH2]]; cbn; lia.
Qed.

Lemma to_little_uint_digits (p : positive) :
  (Decimal.nb_digits (Pos.to_little_uint p) <= Pos.size_nat p)%nat.
Proof.
  induction p as [p IH|p IH|]; cbn [Pos.to_little_uint Pos.size_nat].
  - pose proof (proj2 (little_double_digits (Pos.to_little_uint p))). lia.
  - pose proof (proj1 (little_double_digits (Pos.to_little_uint p))). lia.
  - cbn. lia.
Qed.

Lemma size_nat_bound (p : positive) (k : nat) :
  Z.pos p < 2 ^ Z.of_nat k -> (Pos.size_nat p <= k)%nat.
Proof.
  revert k. induction p as [p IH|p IH|]; intros k Hk;
    (destruct k as [|k]; [cbn in Hk; lia|]);
    rewrite Nat2Z.inj_succ, Z.pow_succ_r in Hk by lia;
    cbn [Pos.size_nat].
  - apply le_n_S, IH. lia.
  - apply le_n_S, IH. lia.
  - lia.
Qed.

Lemma string_of_uint_length (d : Decimal.uint) :
  String.length (NilEmpty.string_of_uint d) = Decimal.nb_digits d.
Proof.
  induction d; cbn; congruence.
Qed.

Lemma pos_to_uint_nonnil (p : positive) : Pos.to_uint p <> Decimal.Nil.
Proof. apply Unsigned.to_uint_nonnil. Qed.

Lemma nilzero_string_of_uint (d : Decimal.uint) :
  d <> Decimal.Nil -> NilZero.string_of_uint d = NilEmpty.string_of_uint d.
Proof.
  destruct d; intros H; try reflexivity. now contradict H.
Qed.

Lemma pos_repr_length (p : positive) (k : nat) :
  Z.pos p < 2 ^ Z.of_nat k ->
  (String.length (NilZero.string_of_uint (Pos.to_uint p)) <= k)%nat.
Proof.
  intros Hk.
  rewrite nilzero_string_of_uint by apply pos_to_uint_nonnil.
  rewrite string_of_uint_length. unfold Pos.to_uint.
  rewrite nb_digits_rev.
  pose proof (to_little_uint_digits p).
  pose proof (size_nat_bound p k Hk). lia.
Qed.

(** An integer below [2^k] in absolute value takes at most [k + 2]
    characters (one decimal digit per bit at most, plus the sign). *)
Lemma int_repr_length (z : Z) (k : nat) :
  Z.abs z < 2 ^ Z.of_nat k -> (String.length (int_repr z) <= k + 2)%nat.
Proof.
  intros Hk. unfold int_repr. destruct z as [|p|p]; cbn [Z.to_int].
  - cbn. lia.
  - cbn [NilZero.string_of_int]. pose proof (pos_repr_length p k Hk). lia.
  - cbn [NilZero.string_of_int String.length].
    pose proof (pos_repr_length p k Hk). lia.
Qed.

(** ** Reading back what [json_dumps] wrote *)

Fixpoint all_digits (s : string) : bool :=
  match s with
  | EmptyString => true
  | String c r => is_digit c && all_digits r
  end.

(** The first character, if any, cannot continue a number. *)
Definition ends_number (s : string) : bool :=
  match s with
  | EmptyString => true
  | String c _ => negb (is_digit c)
  end.

(** A key that [read_key] reads back: no quote, no backslash. *)
Fixpoint plain_key (k : string) : bool :=
  match k with
  | EmptyString => true
  | String c r =>
      negb (Ascii.eqb c dquote) && negb (Ascii.eqb c "\") && plain_key r
  end.

Lemma string_of_uint_all_digits (d : Decimal.uint) :
  all_digits (NilEmpty.string_of_uint d) = true.
Proof.
  induction d; cbn; auto.
Qed.

Lemma span_digits_app (ds rest : string) :
  all_digits ds = true -> ends_number rest = true ->
  span_digits (ds ++ rest) = (ds, rest).
Proof.
  intros Hd Hr. induction ds as [|c ds IH]; cbn in *.
  - destruct rest as [|c r]; cbn in *; [reflexivity|].
    apply negb_true_iff in Hr. now rewrite Hr.
  - apply andb_prop in Hd as [Hc Hd]. rewrite Hc, (IH Hd). reflexivity.
Qed.

Lemma parse_int_digit_head (c : ascii) (r : string) :
  is_digit c = true ->
  parse_int (String c r) =
  let (d, r') := span_digits (String c r) in
  match NilZero.uint_of_string d with
  | Some u => Some (PyInt (Z.of_int (Decimal.Pos u)), r')
  | None => None
  end.
Proof.
  destruct c as [[] [] [] [] [] [] [] []]; intros H;
    try discriminate H; reflexivity.
Qed.

Lemma parse_value_digit_head (c : ascii) (r : string) :
  is_digit c = true -> parse_value (String c r) = parse_int (String c r).
Proof.
  destruct c as [[] [] [] [] [] [] [] []]; intros H;
    try discriminate H; reflexivity.
Qed.

Lemma uint_text_head (d : Decimal.uint) :
  d <> Decimal.Nil ->
  exists c s, NilEmpty.string_of_uint d = String c s /\ is_digit c = true.
Proof.
  destruct d; intros H; try (now contradict H); cbn; eauto.
Qed.

Lemma parse_int_repr (z : Z) (rest : string) :
  ends_number rest = true ->
  parse_int (int_repr z ++ rest) = Some (PyInt z, rest).
Proof.
  intros Hr. unfold int_repr.
  pose proof (DecimalZ.of_to z) as Hz.
  destruct (Z.to_int z) as [u|u] eqn:Eu.
  - assert (Hu : u <> Decimal.Nil).
    { destruct z; cbn in Eu; inversion Eu; subst;
        [discriminate | apply pos_to_uint_nonnil]. }
    cbn [NilZero.string_of_int].
    rewrite nilzero_string_of_uint by exact Hu.
    destruct (uint_text_head u Hu) as (c & s & Es & Hc).
    pose proof (string_of_uint_all_digits u) as Hall.
    pose proof (NilZero.usu u Hu) as Husu.
    rewrite nilzero_string_of_uint in Husu by exact Hu.
    rewrite Es in *. cbn [append].
    rewrite parse_int_digit_head by exact Hc.
    change (String c (s ++ rest)) with (String c s ++ rest)%string.
    rewrite span_digits_app by assumption.
    rewrite Husu, Hz. reflexivity.
  - assert (Hu : u <> Decimal.Nil).
    { destruct z; cbn in Eu; inversion Eu; subst. apply pos_to_uint_nonnil. }
    cbn [NilZero.string_of_int append parse_int].
    rewrite nilzero_string_of_uint by exact Hu.
    pose proof (string_of_uint_all_digits u) as Hall.
    pose proof (NilZero.usu u Hu) as Husu.
    rewrite nilzero_string_of_uint in Husu by exact Hu.
    rewrite span_digits_app by assumption.
    rewrite Husu, Hz. reflexivity.
Qed.

Lemma int_repr_head (z : Z) :
  exists c s, int_repr z = String c s
              /\ (is_digit c = true \/ c = "-"%char).
Proof.
  unfold int_repr. destruct z as [|p|p]; cbn [Z.to_int NilZero.string_of_int].
  - cbn. eauto.
  - rewrite nilzero_string_of_uint by apply pos_to_uint_nonnil.
    destruct (uint_text_head _ (pos_to_uint_nonnil p)) as (c & s & E & H).
    eauto.
  - eauto.
Qed.

Lemma string_app_assoc (a b c : string) : ((a ++ b) ++ c = a ++ (b ++ c))%string.
Proof.
  induction a as [|x a IH]; cbn; [reflexivity | now rewrite IH].
Qed.

Lemma digit_not_ws (c : ascii) : is_digit c = true -> is_ws c = false.
Proof.
  destruct c as [[] [] [] [] [] [] [] []]; intros H;
    try discriminate H; reflexivity.
Qed.

Lemma skip_ws_head (c : ascii) (r : string) :
  is_ws c = false -> skip_ws (String c r) = String c r.
Proof.
  intros H. cbn [skip_ws]. now rewrite H.
Qed.

Lemma skip_ws_dumps_value (v : pyval) (rest : string) :
  skip_ws (dumps_value v ++ rest) = (dumps_value v ++ rest)%string.
Proof.
  destruct v as [z|[|]]; try reflexivity.
  cbn [dumps_value].
  destruct (int_repr_head z) as (c & s & E & [Hc | Hc]); rewrite E.
  - apply skip_ws_head, digit_not_ws, Hc.
  - subst c. reflexivity.
Qed.

Lemma parse_value_dumps (v : pyval) (rest : string) :
  ends_number rest = true ->
  parse_value (dumps_value v ++ rest) = Some (v, rest).
Proof.
  intros Hr. destruct v as [z|[|]]; try reflexivity.
  cbn [dumps_value]. rewrite <- (parse_int_repr z rest Hr).
  destruct (int_repr_head z) as (c & s & E & [Hc | Hc]); rewrite E.
  - apply parse_value_digit_head, Hc.
  - subst c. reflexivity.
Qed.

Lemma read_key_plain (k rest : string) :
  plain_key k = true ->
  read_key (k ++ String dquote rest) = Some (k, rest).
Proof.
  induction k as [|c k IH]; intros H.
  - reflexivity.
  - cbn [plain_key] in H.
    apply andb_prop in H as [H Hk]. apply andb_prop in H as [Hq Hb].
    apply negb_true_iff in Hq, Hb.
    cbn [append read_key]. rewrite Hq, Hb, (IH Hk). reflexivity.
Qed.

Lemma parse_members_space (fuel : nat) (s : string) :
  parse_members fuel (String " " s) = parse_members fuel s.
Proof.
  destruct fuel; reflexivity.
Qed.

Definition plain_keys (d : pydict) : bool :=
  forallb (fun kv => plain_key (fst kv)) d.

Lemma parse_members_dumps (items : pydict) :
  items <> [] -> plain_keys items = true ->
  forall fuel, (List.length items <= fuel)%nat ->
  parse_members fuel (dumps_items items ++ "}") = Some items.
Proof.
  induction items as [|[k v] rest IH]; intros Hne Hk fuel Hf.
  - now contradict Hne.
  - destruct fuel as [|fuel]; [cbn in Hf; lia|].
    cbn [plain_keys forallb fst] in Hk. apply andb_prop in Hk as [Hk Hrest].
    cbn [dumps_items]. unfold dumps_key.
    rewrite !string_app_assoc. cbn [append].
    rewrite !string_app_assoc. cbn [append].
    cbn [parse_members].
    rewrite skip_ws_head by reflexivity.
    replace (Ascii.eqb dquote dquote) with true by reflexivity.
    rewrite (read_key_plain k _ Hk).
    rewrite skip_ws_head by reflexivity.
    change (skip_ws (String " " ?s)) with (skip_ws s).
    cbn [skip_ws is_ws nat_of_ascii].
    destruct rest as [|kv rest'].
    + cbn [append]. rewrite skip_ws_dumps_value.
      rewrite parse_value_dumps by reflexivity. reflexivity.
    + cbn [append]. rewrite skip_ws_dumps_value.
      rewrite parse_value_dumps by reflexivity.
      rewrite skip_ws_head by reflexivity.
      rewrite parse_members_space.
      rewrite IH; [reflexivity | discriminate | exact Hrest |].
      cbn [List.length] in *. lia.
Qed.

Lemma dumps_items_length (items : pydict) :
  (List.length items <= String.length (dumps_items items))%nat.
Proof.
  induction items as [|[k v] rest IH]; cbn [List.length dumps_items].
  - lia.
  - unfold dumps_key. cbn [append String.length].
    rewrite !string_length_app. cbn [String.length].
    destruct rest as [|kv rest']; [cbn; lia|].
    rewrite string_length_app. cbn [String.length] in *. lia.
Qed.

Lemma dumps_items_head (d : pydict) :
  d <> [] -> exists s, (dumps_items d ++ "}")%string = String dquote s.
Proof.
  destruct d as [|[k v] rest]; intros Hne; [now contradict Hne|].
  cbn [dumps_items]. unfold dumps_key. cbn [append]. eauto.
Qed.

Lemma parse_object_dumps (d : pydict) :
  d <> [] -> plain_keys d = true -> parse_object (json_dumps d) = Some d.
Proof.
  intros Hne Hk. unfold json_dumps, parse_object. cbn [append].
  rewrite skip_ws_head by reflexivity.
  destruct (dumps_items_head d Hne) as [s E]. rewrite E.
  rewrite skip_ws_head by reflexivity.
  replace (match String dquote s with
           | String "}"%char r' =>
               match skip_ws r' with
               | EmptyString => Some []
               | String _ _ => None
               end
           | _ => parse_members (String.length (String dquote s))
                    (String dquote s)
           end)
    with (parse_members (String.length (String dquote s)) (String dquote s))
    by reflexivity.
  rewrite <- E. apply parse_members_dumps; try assumption.
  rewrite string_length_app. pose proof (dumps_items_length d). lia.
Qed.

Lemma firstn_length_app (A : Type) (l r : list A) :
  firstn (List.length l) (l ++ r) = l.
Proof.
  induction l as [|x l IH]; cbn; [now destruct r | now rewrite IH].
Qed.

Lemma skipn_length_app (A : Type) (l r : list A) :
  skipn (List.length l) (l ++ r) = r.
Proof.
  induction l as [|x l IH]; cbn; [reflexivity | exact IH].
Qed.

Lemma split_frame_layout (meta_json audio : bytes) :
  len meta_json < 2 ^ 32 ->
  exists prefix,
    struct_pack_I (len meta_json) = Ok prefix
    /\ List.length prefix = 4%nat
    /\ split_frame (prefix ++ meta_json ++ audio) = Some (meta_json, audio).
Proof.
  intros Hlen. unfold struct_pack_I, len in *.
  assert (H0 : 0 <= Z.of_nat (List.length meta_json)) by lia.
  destruct (Z.leb_spec 0 (Z.of_nat (List.length meta_json))); [|lia].
  destruct (Z.ltb_spec (Z.of_nat (List.length meta_json)) (2 ^ 32)); [|lia].
  cbn [andb]. eexists. split; [reflexivity|]. split; [reflexivity|].
  cbn [app split_frame].
  rewrite unpack_pack_I by lia. rewrite Nat2Z.id.
  rewrite length_app.
  destruct (Nat.leb_spec (List.length meta_json)
              (List.length meta_json + List.length audio)); [|lia].
  now rewrite firstn_length_app, skipn_length_app.
Qed.

(** ** Bounds Python itself puts on the inputs of [frame] *)

(** [len(b) <= sys.maxsize] for every bytes object. *)
Definition PY_SSIZE_T_MAX : Z := 2 ^ 63 - 1.

(** [int(time.time() * 1000)] is the truncation of a C double, and the
    global [SAMPLE_RATE] is a small literal; both are below [2^1024] in
    absolute value. *)
Definition int_in_range (z : Z) : Prop := Z.abs z < 2 ^ 1024.

Lemma int_in_range_length (z : Z) :
  int_in_range z -> (String.length (int_repr z) <= 1026)%nat.
Proof.
  intros H. apply (int_repr_length z 1024). exact H.
Qed.

Lemma frame_meta_even (sample_rate now_ms : Z) (a : bytes) :
  Nat.even (List.length a) = true ->
  frame_meta sample_rate now_ms a =
  Ok [ ("sampleRate"%string, PyInt sample_rate);
       ("dataLength"%string, PyInt (len a / 2));
       ("checksum"%string, PyInt (checksum16_spec a));
       ("timestamp"%string, PyInt now_ms);
       ("server_sent_to_stt"%string, PyBool true) ].
Proof.
  intros He. unfold frame_meta. rewrite (checksum_int16_even a He).
  reflexivity.
Qed.

Lemma frame_meta_json_length (sample_rate now_ms : Z) (a : bytes) :
  int_in_range sample_rate -> int_in_range now_ms ->
  len a <= PY_SSIZE_T_MAX ->
  len (encode_utf8 (json_dumps
         [ ("sampleRate"%string, PyInt sample_rate);
           ("dataLength"%string, PyInt (len a / 2));
           ("checksum"%string, PyInt (checksum16_spec a));
           ("timestamp"%string, PyInt now_ms);
           ("server_sent_to_stt"%string, PyBool true) ])) < 2 ^ 32.
Proof.
  intros Hs Ht Ha. unfold len at 1, encode_utf8.
  rewrite length_list_byte_of_string.
  pose proof (int_in_range_length _ Hs) as L1.
  pose proof (int_in_range_length _ Ht) as L4.
  assert (L2 : (String.length (int_repr (len a / 2)) <= 65)%nat).
  { apply (int_repr_length _ 63). unfold PY_SSIZE_T_MAX, len in *.
    assert (0 <= Z.of_nat (List.length a) / 2 <= Z.of_nat (List.length a))
      by (split; [apply Z.div_pos; lia | apply Z.div_le_upper_bound; lia]).
    change (Z.of_nat 63) with 63. lia. }
  assert (L3 : (String.length (int_repr (checksum16_spec a)) <= 34)%nat).
  { apply (int_repr_length _ 32). pose proof (checksum16_spec_range a).
    change (Z.of_nat 32) with 32. lia. }
  unfold json_dumps. cbn [dumps_items dumps_value]. unfold dumps_key.
  repeat (progress (rewrite ?string_length_app; cbn [append String.length])).
  change (2 ^ 32) with 4294967296. lia.
Qed.

Lemma frame_even (sample_rate now_ms : Z) (a : bytes) :
  Nat.even (List.length a) = true ->
  int_in_range sample_rate -> int_in_range now_ms ->
  len a <= PY_SSIZE_T_MAX ->
  let meta := [ ("sampleRate"%string, PyInt sample_rate);
                ("dataLength"%string, PyInt (len a / 2));
                ("checksum"%string, PyInt (checksum16_spec a));
                ("timestamp"%string, PyInt now_ms);
                ("server_sent_to_stt"%string, PyBool true) ] in
  let meta_json := encode_utf8 (json_dumps meta) in
  exists prefix,
    struct_pack_I (len meta_json) = Ok prefix
    /\ List.length prefix = 4%nat
    /\ frame sample_rate now_ms a = Ok (prefix ++ meta_json ++ a)
    /\ split_frame (prefix ++ meta_json ++ a) = Some (meta_json, a)
    /\ reference_decode (prefix ++ meta_json ++ a) = Some (meta, a).
Proof.
  intros He Hs Ht Ha meta meta_json.
  pose proof (frame_meta_json_length sample_rate now_ms a Hs Ht Ha) as Hlen.
  fold meta in Hlen. fold meta_json in Hlen.
  destruct (split_frame_layout meta_json a Hlen) as (prefix & Hp & H4 & Hsplit).
  exists prefix. repeat split; try assumption.
  - unfold frame. rewrite (frame_meta_even _ _ _ He). cbn [bind].
    fold meta. fold meta_json. rewrite Hp. reflexivity.
  - unfold reference_decode. rewrite Hsplit.
    unfold meta_json, encode_utf8, decode_utf8_ascii.
    rewrite string_of_list_byte_of_string.
    rewrite parse_object_dumps; [reflexivity | discriminate | reflexivity].
Qed.

(** ** The claims on the checksum and the frame codec *)

(** C2: on a buffer of even length, [checksum_int16] returns the sum of
    the signed 16-bit little-endian samples, accumulated with 64-bit
    wrapping additions and masked with [0xFFFFFFFF]; this is the exact sum
    modulo [2^32], a value of [0 .. 2^32 - 1], and it depends on the buffer
    alone: equal buffers give equal checksums. *)
Theorem checksum_int16_correct (a : bytes) :
  Nat.even (List.length a) = true ->
  frombuffer_int16 a = Ok (samples16 a)
  /\ Forall (fun s => -32768 <= s < 32768) (samples16 a)
  /\ np_sum_int64 (samples16 a) = wrap_int64 (sum_Z (samples16 a))
  /\ checksum_int16 a = Ok (Z.land (np_sum_int64 (samples16 a)) 0xFFFFFFFF)
  /\ checksum_int16 a = Ok (checksum16_spec a)
  /\ checksum16_spec a = sum_Z (samples16 a) mod 2 ^ 32
  /\ 0 <= checksum16_spec a < 2 ^ 32
  /\ (forall b : bytes, b = a -> checksum_int16 b = checksum_int16 a).
Proof.
  intros He. repeat split.
  - apply frombuffer_even, He.
  - apply samples16_range.
  - apply np_sum_int64_wrap.
  - unfold checksum_int16. rewrite (frombuffer_even a He). reflexivity.
  - apply checksum_int16_even, He.
  - apply land_mask32.
  - apply checksum16_spec_range.
  - apply checksum16_spec_range.
  - intros b ->. reflexivity.
Qed.

Lemma checksum_int16_correct_witness :
  Nat.even (List.length [xff; xff; x02; x00; x00; x80]) = true
  /\ checksum_int16 [xff; xff; x02; x00; x00; x80] = Ok 4294934529.
Proof.
  split; [reflexivity|].
  destruct (checksum_int16_correct [xff; xff; x02; x00; x00; x80] eq_refl)
    as (_ & _ & _ & _ & H & _).
  rewrite H. reflexivity.
Defined.

(** C1: for every buffer [a] of even length (the empty one included),
    [frame] returns the 4-byte little-endian length of the metadata text,
    then that text, then [a] unchanged; cutting the frame at the length the
    prefix announces gives back the metadata text and [a], and reading the
    metadata gives back the sample rate, [len(a) / 2] and the checksum of
    [a]. *)
Theorem frame_roundtrip (sample_rate now_ms : Z) (a : bytes) :
  Nat.even (List.length a) = true ->
  int_in_range sample_rate -> int_in_range now_ms ->
  len a <= PY_SSIZE_T_MAX ->
  exists prefix meta_json meta checksum,
    frame sample_rate now_ms a = Ok (prefix ++ meta_json ++ a)
    /\ struct_pack_I (len meta_json) = Ok prefix
    /\ List.length prefix = 4%nat
    /\ meta_json = encode_utf8 (json_dumps meta)
    /\ split_frame (prefix ++ meta_json ++ a) = Some (meta_json, a)
    /\ reference_decode (prefix ++ meta_json ++ a) = Some (meta, a)
    /\ checksum_int16 a = Ok checksum
    /\ dict_get meta "sampleRate" = Some (PyInt sample_rate)
    /\ dict_get meta "dataLength" = Some (PyInt (len a / 2))
    /\ dict_get meta "checksum" = Some (PyInt checksum).
Proof.
  intros He Hs Ht Ha.
  destruct (frame_even sample_rate now_ms a He Hs Ht Ha)
    as (prefix & Hp & H4 & Hf & Hsplit & Hdec).
  exists prefix. eexists. eexists. exists (checksum16_spec a).
  split; [exact Hf|]. split; [exact Hp|]. split; [exact H4|].
  split; [reflexivity|]. split; [exact Hsplit|]. split; [exact Hdec|].
  split; [apply checksum_int16_even, He|].
  repeat split; reflexivity.
Qed.

Lemma frame_roundtrip_witness :
  exists prefix meta_json meta checksum,
    frame SAMPLE_RATE 1700000000000 [] = Ok (prefix ++ meta_json ++ [])
    /\ struct_pack_I (len meta_json) = Ok prefix
    /\ List.length prefix = 4%nat
    /\ meta_json = encode_utf8 (json_dumps meta)
    /\ split_frame (prefix ++ meta_json ++ []) = Some (meta_json, [])
    /\ reference_decode (prefix ++ meta_json ++ []) = Some (meta, [])
    /\ checksum_int16 [] = Ok checksum
    /\ dict_get meta "sampleRate" = Some (PyInt SAMPLE_RATE)
    /\ dict_get meta "dataLength" = Some (PyInt (len (@nil byte) / 2))
    /\ dict_get meta "checksum" = Some (PyInt checksum).
Proof.
  apply (frame_roundtrip SAMPLE_RATE 1700000000000 []).
  - reflexivity.
  - reflexivity.
  - reflexivity.
  - discriminate.
Defined.

(** C8: on a buffer of odd length [frame] raises (the [ValueError] of the
    int16 view of the buffer, the error of an audio length that is not a
    whole number of samples) and returns no frame; on every buffer of even
    length it returns a frame. *)
Theorem frame_odd_length_raises (sample_rate now_ms : Z) (a : bytes) :
  int_in_range sample_rate -> int_in_range now_ms ->
  len a <= PY_SSIZE_T_MAX ->
  (Nat.even (List.length a) = false ->
   frame sample_rate now_ms a = Raise ValueError)
  /\ (Nat.even (List.length a) = true ->
      exists f, frame sample_rate now_ms a = Ok f)
  /\ is_ok (frame sample_rate now_ms a) = Nat.even (List.length a).
Proof.
  intros Hs Ht Ha.
  assert (Hodd : Nat.even (List.length a) = false ->
                 frame sample_rate now_ms a = Raise ValueError).
  { intros Ho. unfold frame, frame_meta, checksum_int16.
    rewrite (frombuffer_odd a Ho). reflexivity. }
  assert (Heven : Nat.even (List.length a) = true ->
                  exists f, frame sample_rate now_ms a = Ok f).
  { intros He.
    destruct (frame_even sample_rate now_ms a He Hs Ht Ha)
      as (prefix & _ & _ & Hf & _).
    eauto. }
  split; [exact Hodd|]. split; [exact Heven|].
  destruct (Nat.even (List.length a)) eqn:E.
  - destruct (Heven eq_refl) as [f Hf]. rewrite Hf. reflexivity.
  - rewrite (Hodd eq_refl). reflexivity.
Qed.

Lemma frame_odd_length_raises_witness :
  frame SAMPLE_RATE 1700000000000 [x01; x00; x02] = Raise ValueError
  /\ exists f, frame SAMPLE_RATE 1700000000000 [x01; x00; x02; x00] = Ok f.
Proof.
  split.
  - apply (frame_odd_length_raises SAMPLE_RATE 1700000000000 [x01; x00; x02]);
      reflexivity || discriminate.
  - apply (frame_odd_length_raises SAMPLE_RATE 1700000000000
             [x01; x00; x02; x00]); reflexivity || discriminate.
Defined.

(** C9: for every buffer of even length, the metadata map of the frame has
    exactly the five keys [sampleRate], [dataLength], [checksum],
    [timestamp] and [server_sent_to_stt], in this order; the flag
    [server_sent_to_stt] is [true], and the capture time is stored under
    [timestamp]: there is no key [timestampMs]. *)
Theorem frame_metadata_keys (sample_rate now_ms : Z) (a : bytes) :
  Nat.even (List.length a) = true ->
  int_in_range sample_rate -> int_in_range now_ms ->
  len a <= PY_SSIZE_T_MAX ->
  exists f meta,
    frame sample_rate now_ms a = Ok f
    /\ frame_meta sample_rate now_ms a = Ok meta
    /\ reference_decode f = Some (meta, a)
    /\ dict_keys meta =
         [ "sampleRate"; "dataLength"; "checksum"; "timestamp";
           "server_sent_to_stt" ]%string
    /\ dict_get meta "server_sent_to_stt" = Some (PyBool true)
    /\ dict_get meta "timestamp" = Some (PyInt now_ms)
    /\ dict_get meta "timestampMs" = None.
Proof.
  intros He Hs Ht Ha.
  destruct (frame_even sample_rate now_ms a He Hs Ht Ha)
    as (prefix & _ & _ & Hf & _ & Hdec).
  eexists. eexists. split; [exact Hf|].
  split; [apply frame_meta_even, He|].
  split; [exact Hdec|].
  repeat split; reflexivity.
Qed.

Lemma frame_metadata_keys_witness :
  exists f meta,
    frame SAMPLE_RATE 1700000000000 [x10; x00; xf0; xff] = Ok f
    /\ frame_meta SAMPLE_RATE 1700000000000 [x10; x00; xf0; xff] = Ok meta
    /\ reference_decode f = Some (meta, [x10; x00; xf0; xff])
    /\ dict_keys meta =
         [ "sampleRate"; "dataLength"; "checksum"; "timestamp";
           "server_sent_to_stt" ]%string
    /\ dict_get meta "server_sent_to_stt" = Some (PyBool true)
    /\ dict_get meta "timestamp" = Some (PyInt 1700000000000)
    /\ dict_get meta "timestampMs" = None.
Proof.
  apply (frame_metadata_keys SAMPLE_RATE 1700000000000 [x10; x00; xf0; xff]).
  - reflexivity.
  - reflexivity.
  - reflexivity.
  - discriminate.
Defined.

(* ================================================================== *)
(** * Properties of the session threads *)

Ltac break_if :=
  match goal with
  | |- context [if ?b then _ else _] => destruct b eqn:?
  | |- context [match ?x with _ => _ end] =>
      match type of x with
      | result _ => destruct x eqn:?
      | option _ => destruct x eqn:?
      | prod _ _ => destruct x eqn:?
      | worker_pc => destruct x eqn:?
      | read_outcome => destruct x eqn:?
      | inbound => destruct x eqn:?
      | key => destruct x eqn:?
      | json => destruct x eqn:?
      end
  end.

Ltac break_all := repeat (break_if; cbn in *; try congruence).

Section ClientFacts.

Variable loads : string -> option json.


Lemma submitted_app (e1 e2 : list event) :
  submitted (e1 ++ e2) = submitted e1 ++ submitted e2.
Proof. unfold submitted. now rewrite flat_map_app. Qed.

Lemma sleeps_app (e1 e2 : list event) :
  sleeps (e1 ++ e2) = sleeps e1 ++ sleeps e2.
Proof. unfold sleeps. now rewrite flat_map_app. Qed.

Lemma session_chunks_app (e1 e2 : list event) :
  session_chunks (e1 ++ e2) = session_chunks e1 ++ session_chunks e2.
Proof. unfold session_chunks. now rewrite flat_map_app. Qed.

Lemma count_finalize_app (e1 e2 : list event) :
  count_finalize (e1 ++ e2) = (count_finalize e1 + count_finalize e2)%nat.
Proof. unfold count_finalize. now rewrite filter_app, length_app. Qed.

Lemma close_stream_fields (c : client) :
  let c1 := fst (close_stream c) in
  running c1 = running c /\ chunk_index c1 = chunk_index c
  /\ current_chunk c1 = current_chunk c /\ ptt_active c1 = ptt_active c
  /\ submitted (snd (close_stream c)) = []
  /\ sleeps (snd (close_stream c)) = []
  /\ session_chunks (snd (close_stream c)) = []
  /\ count_finalize (snd (close_stream c)) = 0%nat.
Proof.
  unfold close_stream. destruct (stream c); cbn; repeat split; reflexivity.
Qed.

Lemma receiver_classify_fields (c c1 : client) (data : json)
  (continue : bool) (ev : list event) :
  receiver_classify c data = Ok (c1, continue, ev) ->
  (running c = false -> running c1 = false)
  /\ chunk_index c1 = chunk_index c /\ current_chunk c1 = current_chunk c
  /\ submitted ev = [] /\ sleeps ev = [] /\ session_chunks ev = [].
Proof.
  unfold receiver_classify, bind, py_get. intros H.
  destruct data; try discriminate H.
  repeat match type of H with
         | context [match ?x with _ => _ end] => destruct x
         | context [if ?b then _ else _] => destruct b
         end;
    inversion H; subst; cbn; repeat split; auto.
Qed.

Lemma receiver_step_fields (c : client) (m : inbound) :
  let '(c1, continue, ev) := receiver_step loads c m in
  (running c = false -> running c1 = false)
  /\ chunk_index c1 = chunk_index c /\ current_chunk c1 = current_chunk c
  /\ submitted ev = [] /\ sleeps ev = [] /\ session_chunks ev = [].
Proof.
  unfold receiver_step. destruct m as [msg| | |]; cbn; try (repeat split; auto).
  destruct (loads msg) as [data|]; [|repeat split; auto].
  destruct (receiver_classify c data) as [[[c1 k] ev]|e] eqn:E.
  - apply (receiver_classify_fields _ _ _ _ _ E).
  - cbn. repeat split; auto.
Qed.

(** Nothing that happens during a session changes the chunk size, sets
    [running] again, or sleeps. *)
Lemma step_fields (s : sys) (a : action) :
  let (s1, ev) := step loads s a in
  (running (cl s) = false -> running (cl s1) = false)
  /\ (receiver_alive s = false -> receiver_alive s1 = false)
  /\ chunk_index (cl s1) = chunk_index (cl s)
  /\ current_chunk (cl s1) = current_chunk (cl s)
  /\ sleeps ev = [] /\ session_chunks ev = []
  /\ (running (cl s) = false -> submitted ev = []).
Proof.
  destruct s as [c was pc ra sa]. destruct a as [k|k|ch|t1 t2 ok|r t|m|];
    cbn [step cl was_active worker receiver_alive stdin_alive].
  - destruct (toggle_mode c); [cbn; repeat split; auto|].
    unfold on_press. destruct k as [|ch|];
      repeat (break_if; cbn); repeat split; auto.
  - destruct (toggle_mode c); [cbn; repeat split; auto|].
    unfold on_release. destruct k as [|ch|];
      repeat (break_if; cbn); repeat split; auto.
  - unfold toggle_stdin.
    repeat (break_if; cbn); repeat split; auto.
  - destruct pc; cbn; try (repeat split; auto; fail).
    unfold worker_top.
    destruct (stop_threads c || negb (running c)) eqn:Eg;
      [cbn; repeat split; auto|].
    apply orb_false_elim in Eg as [_ Er]. apply negb_false_iff in Er.
    destruct (negb (ptt_active c)).
    + destruct was; [|cbn; repeat split; auto; congruence].
      pose proof (close_stream_fields c) as Hc. cbn zeta in Hc.
      destruct (close_stream c) as [c1 closed]. cbn [fst snd] in Hc.
      destruct Hc as (H1 & H2 & H3 & H4 & H5 & H6 & H7 & H8).
      cbn [cl receiver_alive]. rewrite !sleeps_app, !session_chunks_app.
      rewrite H6, H7. unfold tail_frames.
      repeat split; auto; try congruence;
        repeat (break_if; cbn); auto.
    + destruct (negb was); [|cbn; repeat split; auto; congruence].
      unfold open_stream.
      repeat (break_if; cbn); repeat split; auto; try congruence;
        match goal with H : Ok _ = Ok _ |- _ => inversion H; subst end;
        cbn; auto.
  - destruct pc; cbn; try (repeat split; auto; fail).
    unfold worker_read. destruct r as [audio|]; [|cbn; repeat split; auto].
    destruct (frame SAMPLE_RATE t audio); [|cbn; repeat split; auto].
    destruct (ws c) eqn:Ew, (running c) eqn:Er, (loop c) eqn:El;
      cbn; repeat split; auto; congruence.
  - destruct ra; [|cbn; repeat split; auto].
    pose proof (receiver_step_fields c m) as H.
    destruct (receiver_step loads c m) as [[c1 k] ev].
    cbn. destruct H as (H1 & H2 & H3 & H4 & H5 & H6).
    repeat split; auto. congruence.
  - cbn. repeat split; auto.
Qed.



Lemma exec_app (s : sys) (a1 a2 : list action) :
  exec loads s (a1 ++ a2) =
  let (s1, e1) := exec loads s a1 in
  let (s2, e2) := exec loads s1 a2 in (s2, e1 ++ e2).
Proof.
  revert s. induction a1 as [|a a1 IH]; intros s; cbn [app exec].
  - destruct (exec loads s a2). reflexivity.
  - destruct (step loads s a) as [s1 e1]. rewrite IH.
    destruct (exec loads s1 a1) as [s2 e2]. destruct (exec loads s2 a2) as [s3 e3].
    now rewrite app_assoc.
Qed.

Lemma exec_fields (s : sys) (acts : list action) :
  let (s1, ev) := exec loads s acts in
  (running (cl s) = false -> running (cl s1) = false)
  /\ (receiver_alive s = false -> receiver_alive s1 = false)
  /\ chunk_index (cl s1) = chunk_index (cl s)
  /\ current_chunk (cl s1) = current_chunk (cl s)
  /\ sleeps ev = [] /\ session_chunks ev = []
  /\ (running (cl s) = false -> submitted ev = []).
Proof.
  revert s. induction acts as [|a acts IH]; intros s; cbn [exec].
  - repeat split; auto.
  - pose proof (step_fields s a) as Hs. destruct (step loads s a) as [s1 e1].
    specialize (IH s1). destruct (exec loads s1 acts) as [s2 e2].
    destruct Hs as (A1 & A2 & A3 & A4 & A5 & A6 & A7).
    destruct IH as (B1 & B2 & B3 & B4 & B5 & B6 & B7).
    rewrite sleeps_app, session_chunks_app, submitted_app.
    rewrite A5, A6, B5, B6.
    repeat split; auto; try congruence.
    intros Hr. rewrite (A7 Hr), (B7 (A1 Hr)). reflexivity.
Qed.

Lemma wait_loop_fields (s : sys) (acts : list action) :
  let '(s1, ev, out) := wait_loop loads s acts in
  (running (cl s) = false -> running (cl s1) = false)
  /\ (receiver_alive s = false -> receiver_alive s1 = false)
  /\ chunk_index (cl s1) = chunk_index (cl s)
  /\ current_chunk (cl s1) = current_chunk (cl s)
  /\ sleeps ev = [] /\ session_chunks ev = []
  /\ (running (cl s) = false -> submitted ev = [])
  /\ (out = Returned -> running (cl s1) = false)
  /\ out <> Raised.
Proof.
  revert s. induction acts as [|a acts IH]; intros s.
  - cbn. repeat split; auto; discriminate.
  - assert (Hgen :
      let '(s1, ev, out) :=
        (let (s1, ev1) := step loads s a in
         let '(s2, ev2, out) := wait_loop loads s1 acts in (s2, ev1 ++ ev2, out)) in
      (running (cl s) = false -> running (cl s1) = false)
      /\ (receiver_alive s = false -> receiver_alive s1 = false)
      /\ chunk_index (cl s1) = chunk_index (cl s)
      /\ current_chunk (cl s1) = current_chunk (cl s)
      /\ sleeps ev = [] /\ session_chunks ev = []
      /\ (running (cl s) = false -> submitted ev = [])
      /\ (out = Returned -> running (cl s1) = false)
      /\ out <> Raised).
    { pose proof (step_fields s a) as Hs. destruct (step loads s a) as [s1 e1].
      specialize (IH s1). destruct (wait_loop loads s1 acts) as [[s2 e2] out].
      destruct Hs as (A1 & A2 & A3 & A4 & A5 & A6 & A7).
      destruct IH as (B1 & B2 & B3 & B4 & B5 & B6 & B7 & B8 & B9).
      rewrite sleeps_app, session_chunks_app, submitted_app.
      rewrite A5, A6, B5, B6.
      repeat split; auto; try congruence.
      intros Hr. rewrite (A7 Hr), (B7 (A1 Hr)). reflexivity. }
    destruct a; try exact Hgen.
    cbn [wait_loop]. destruct (running (cl s)) eqn:Er.
    + specialize (IH s). destruct (wait_loop loads s acts) as [[s2 e2] out].
      rewrite Er in IH. exact IH.
    + repeat split; auto; discriminate.
Qed.

(** As long as [running] holds, the wait loop lets the other threads run. *)
Lemma wait_loop_prefix (s : sys) (pre rest : list action) :
  running (cl (fst (exec loads s pre))) = true ->
  wait_loop loads s (pre ++ rest) =
  let (s1, e1) := exec loads s pre in
  let '(s2, e2, out) := wait_loop loads s1 rest in (s2, e1 ++ e2, out).
Proof.
  revert s. induction pre as [|a pre IH]; intros s Hr.
  - cbn. destruct (wait_loop loads s rest) as [[s2 e2] out]. reflexivity.
  - cbn [exec] in *.
    pose proof (step_fields s a) as Hs.
    destruct (step loads s a) as [s1 e1] eqn:Es.
    pose proof (exec_fields s1 pre) as He.
    destruct (exec loads s1 pre) as [s2 e2] eqn:Ee. cbn [fst] in Hr.
    assert (Hr1 : running (cl s1) = true).
    { destruct (running (cl s1)) eqn:E; [reflexivity|].
      destruct He as (H & _). rewrite (H eq_refl) in Hr. discriminate. }
    assert (Hr0 : running (cl s) = true).
    { destruct (running (cl s)) eqn:E; [reflexivity|].
      destruct Hs as (H & _). rewrite (H eq_refl) in Hr1. discriminate. }
    assert (IH1 := IH s1). rewrite Ee in IH1. specialize (IH1 Hr).
    destruct a; cbn [app wait_loop]; rewrite ?Es, ?IH1;
      try (destruct (wait_loop loads s2 rest) as [[s3 e3] out];
           now rewrite app_assoc).
    rewrite Hr0. cbn in Es. inversion Es; subst s1 e1.
    rewrite IH1. destruct (wait_loop loads s2 rest) as [[s3 e3] out]. reflexivity.
Qed.

(** Once [running] is false the next poll of the wait loop leaves it, and
    nothing is submitted in between. *)
Lemma wait_loop_returns (s : sys) (acts : list action) :
  running (cl s) = false -> In MainPoll acts ->
  exists s1 ev,
    wait_loop loads s acts = (s1, ev, Returned)
    /\ running (cl s1) = false /\ submitted ev = [].
Proof.
  revert s. induction acts as [|a acts IH]; intros s Hr Hin.
  - destruct Hin.
  - destruct a;
      try (cbn [wait_loop];
           match goal with
           | |- context [step loads s ?a] =>
               pose proof (step_fields s a) as Hs';
               destruct (step loads s a) as [s1 e1]
           end;
           destruct Hs' as (A1 & _ & _ & _ & _ & _ & A7);
           destruct Hin as [Hin | Hin]; [discriminate Hin|];
           destruct (IH s1 (A1 Hr) Hin) as (s2 & e2 & E & R & S);
           rewrite E; exists s2, (e1 ++ e2);
           rewrite submitted_app, (A7 Hr), S; auto; fail).
    cbn [wait_loop]. rewrite Hr. exists s, []. auto.
Qed.


(** ** Sessions and the retry loop *)

Lemma session_chunks_cons (e : event) (l : list event) :
  session_chunks (e :: l) =
  match e with Print (LogUsingChunk z) => [z] | _ => [] end
  ++ session_chunks l.
Proof. reflexivity. Qed.

Lemma sleeps_cons (e : event) (l : list event) :
  sleeps (e :: l) =
  match e with Sleep z => [z] | _ => [] end ++ sleeps l.
Proof. reflexivity. Qed.

Ltac trace_simpl :=
  repeat (rewrite session_chunks_app || rewrite sleeps_app
          || rewrite session_chunks_cons || rewrite sleeps_cons);
  cbn [app].

Lemma one_session_fields (c : client) (alive : bool) (sch : schedule) :
  let '(c1, alive1, ev, out) := one_session loads c alive sch in
  chunk_index c1 = chunk_index c /\ current_chunk c1 = current_chunk c
  /\ sleeps ev = [] /\ session_chunks ev = [].
Proof.
  unfold one_session. destruct (connect_ok sch); [|cbn; auto].
  match goal with
  | |- context [wait_loop loads ?s0 ?acts] =>
      pose proof (wait_loop_fields s0 acts) as Hw;
      destruct (wait_loop loads s0 acts) as [[s ev] out]
  end.
  destruct Hw as (_ & _ & H3 & H4 & H5 & H6 & _).
  unfold session_cleanup.
  match goal with
  | |- context [close_stream ?x] =>
      pose proof (close_stream_fields x) as Hc;
      destruct (close_stream x) as [c2 closed]
  end.
  cbn zeta in Hc. cbn [fst snd] in Hc.
  destruct Hc as (_ & C2 & C3 & _ & _ & C6 & C7 & _).
  rewrite sleeps_app, session_chunks_app, H5, H6, C6, C7.
  cbn in *. repeat split; congruence.
Qed.

(** The client's chunk size is the table entry at its index. *)
Definition chunk_ok (c : client) : Prop :=
  (chunk_index c < List.length CHUNK_SIZES)%nat
  /\ current_chunk c = nth (chunk_index c) CHUNK_SIZES 0.

Lemma reduce_chunk_spec (c : client) :
  chunk_ok c ->
  let (c1, ev) := reduce_chunk c in
  chunk_ok c1
  /\ (chunk_index c <= chunk_index c1 <= S (chunk_index c))%nat
  /\ (chunk_index c1 <= List.length CHUNK_SIZES - 1)%nat
  /\ chunk_index c1 = Nat.min (S (chunk_index c)) (List.length CHUNK_SIZES - 1)
  /\ current_chunk c1 <= current_chunk c
  /\ ((chunk_index c < List.length CHUNK_SIZES - 1)%nat ->
      chunk_index c1 = S (chunk_index c)
      /\ current_chunk c1 < current_chunk c)
  /\ ((chunk_index c = List.length CHUNK_SIZES - 1)%nat -> c1 = c)
  /\ sleeps ev = [] /\ session_chunks ev = [] /\ submitted ev = [].
Proof.
  intros [Hi Hc]. unfold reduce_chunk, chunk_ok in *.
  destruct c as [r st i sz pa tm cs sm w cw lp]. cbn in *.
  destruct i as [|[|[|i]]]; cbn in *; subst sz;
    repeat split; cbn; auto; try lia.
Qed.

Definition chunk_at (k : nat) : Z :=
  nth (Nat.min k (List.length CHUNK_SIZES - 1)) CHUNK_SIZES 0.

(** What the retry loop, entered with [retries] failures behind it, starts
    and sleeps: [n] sessions, the [k]-th failure followed by a sleep of
    [backoff_of k]; only the last session can be the one that was
    interrupted ([m = n - 1]). *)
Lemma run_loop_trace (fuel : nat) (plan : nat -> schedule) :
  forall (c : client) (alive : bool) (retries : nat) c' ev,
  chunk_ok c ->
  chunk_index c = Nat.min retries (List.length CHUNK_SIZES - 1) ->
  run_loop loads fuel c alive retries plan = Some (c', ev) ->
  exists n m,
    (n <= S max_retries - retries)%nat /\ (m <= n <= S m)%nat
    /\ session_chunks ev = map chunk_at (seq retries n)
    /\ sleeps ev = map backoff_of (seq (S retries) m).
Proof.
  induction fuel as [|fuel IH]; intros c alive retries c' ev Hok Hidx Hrun.
  - discriminate Hrun.
  - cbn [run_loop] in Hrun.
    destruct (Nat.leb_spec retries max_retries) as [Hle|Hgt].
    + pose proof (one_session_fields c alive (plan retries)) as Hs.
      destruct (one_session loads c alive (plan retries))
        as [[[c1 alive1] ev1] out].
      destruct Hs as (S1 & S2 & S3 & S4).
      assert (Hc0 : current_chunk c = chunk_at retries).
      { unfold chunk_at. rewrite <- Hidx. apply Hok. }
      assert (Hok1 : chunk_ok c1)
        by (unfold chunk_ok in *; rewrite S1, S2; exact Hok).
      destruct out.
      * pose proof (reduce_chunk_spec c1 Hok1) as Hr.
        destruct (reduce_chunk c1) as [c2 reduced].
        destruct Hr as (R1 & _ & _ & R4 & _ & _ & _ & R8 & R9 & _).
        destruct (run_loop loads fuel c2 alive1 (S retries) plan)
          as [[c3 ev3]|] eqn:E; [|discriminate Hrun].
        inversion Hrun; subst c' ev. clear Hrun.
        destruct (IH c2 alive1 (S retries) c3 ev3 R1) as (n & m & N1 & N2 & N3 & N4);
          [rewrite R4, S1, Hidx; cbn; lia | exact E |].
        exists (S n), (S m). split; [lia|]. split; [lia|].
        cbn [seq map]. trace_simpl.
        rewrite S3, S4, R8, R9, N3, N4. cbn. rewrite Hc0. auto.
      * pose proof (reduce_chunk_spec c1 Hok1) as Hr.
        destruct (reduce_chunk c1) as [c2 reduced].
        destruct Hr as (R1 & _ & _ & R4 & _ & _ & _ & R8 & R9 & _).
        destruct (run_loop loads fuel c2 alive1 (S retries) plan)
          as [[c3 ev3]|] eqn:E; [|discriminate Hrun].
        inversion Hrun; subst c' ev. clear Hrun.
        destruct (IH c2 alive1 (S retries) c3 ev3 R1) as (n & m & N1 & N2 & N3 & N4);
          [rewrite R4, S1, Hidx; cbn; lia | exact E |].
        exists (S n), (S m). split; [lia|]. split; [lia|].
        cbn [seq map]. trace_simpl.
        rewrite S3, S4, R8, R9, N3, N4. cbn. rewrite Hc0. auto.
      * inversion Hrun; subst c' ev. clear Hrun.
        exists 1%nat, 0%nat. split; [lia|]. split; [lia|].
        trace_simpl. rewrite S3, S4. cbn.
        rewrite Hc0. auto.
    + inversion Hrun; subst c' ev. exists 0%nat, 0%nat.
      repeat split; auto; lia.
Qed.

(** The loop ends: every pass adds one to [retries]. *)
Lemma run_loop_total (plan : nat -> schedule) (fuel : nat) :
  forall (c : client) (alive : bool) (retries : nat),
  (1 <= fuel)%nat -> (S (S max_retries) <= fuel + retries)%nat ->
  exists c' ev, run_loop loads fuel c alive retries plan = Some (c', ev).
Proof.
  induction fuel as [|fuel IH]; intros c alive retries H1 Hf; [lia|].
  cbn [run_loop].
  destruct (Nat.leb_spec retries max_retries) as [Hle|Hgt]; [|eauto].
  destruct (one_session loads c alive (plan retries))
    as [[[c1 alive1] ev1] out].
  destruct (reduce_chunk c1) as [c2 reduced].
  destruct (IH c2 alive1 (S retries) ltac:(lia) ltac:(lia)) as (c3 & ev3 & E).
  rewrite E. destruct out; eauto.
Qed.


Lemma run_loop_returned (fuel : nat) (plan : nat -> schedule)
  (c : client) (alive : bool) (retries : nat)
  (c1 : client) (alive1 : bool) (ev : list event) :
  (retries <= max_retries)%nat ->
  one_session loads c alive (plan retries) = (c1, alive1, ev, Returned) ->
  run_loop loads (S fuel) c alive retries plan =
  match run_loop loads fuel (fst (reduce_chunk c1)) alive1 (S retries) plan with
  | Some (c3, ev3) =>
      Some (c3,
            Print (LogUsingChunk (current_chunk c)) :: ev ++
            snd (reduce_chunk c1) ++
            [Print (LogReconnecting (backoff_of (S retries)) (S retries));
             Sleep (backoff_of (S retries))] ++ ev3)
  | None => None
  end.
Proof.
  intros Hle Hs. cbn [run_loop].
  destruct (Nat.leb_spec retries max_retries); [|lia].
  rewrite Hs. destruct (reduce_chunk c1) as [c2 reduced]. reflexivity.
Qed.

(** After the last allowed failure the loop is left; before that a new
    session is started, with the chunk size the client then has. *)
Lemma run_loop_next (fuel : nat) (plan : nat -> schedule)
  (c : client) (alive : bool) (retries : nat) :
  ((max_retries < retries)%nat ->
   run_loop loads (S fuel) c alive retries plan = Some (c, []))
  /\ ((retries <= max_retries)%nat ->
      forall c' ev,
        run_loop loads (S fuel) c alive retries plan = Some (c', ev) ->
        exists rest, ev = Print (LogUsingChunk (current_chunk c)) :: rest).
Proof.
  split; intros H; cbn [run_loop].
  - destruct (Nat.leb_spec retries max_retries); [lia | reflexivity].
  - destruct (Nat.leb_spec retries max_retries); [|lia].
    intros c' ev.
    destruct (one_session loads c alive (plan retries))
      as [[[c1 alive1] ev1] out].
    destruct (reduce_chunk c1) as [c2 reduced].
    destruct (run_loop loads fuel c2 alive1 (S retries) plan)
      as [[c3 ev3]|]; destruct out; intros E; inversion E; eauto.
Qed.

(** ** The receiver *)

Definition rejection_message (members : list (string * json)) : json :=
  match members_get members "message" with
  | Some v => v
  | None => JStr ""
  end.

Lemma receiver_step_rejects (c : client) (msg : string)
  (members : list (string * json)) :
  loads msg = Some (JObj members) ->
  members_get members "type" = Some (JStr "error") ->
  members_get members "error" = Some (JStr "data_corruption") ->
  receiver_step loads c (Message msg) =
  (set_running false c, false,
   [Print (LogRejected (rejection_message members))]).
Proof.
  intros Hl Ht He. unfold receiver_step, receiver_classify, py_get, bind.
  rewrite Hl, Ht, He. cbn. unfold rejection_message.
  destruct (members_get members "message"); reflexivity.
Qed.

Lemma receiver_step_invalid_json (c : client) (msg : string) :
  loads msg = None -> receiver_step loads c (Message msg) = (c, true, []).
Proof.
  intros Hl. unfold receiver_step. now rewrite Hl.
Qed.

Lemma step_invalid_json (s : sys) (msg : string) :
  loads msg = None -> step loads s (Recv (Message msg)) = (s, []).
Proof.
  intros Hl. destruct s as [c was pc ra sa]. cbn [step receiver_alive cl].
  destruct ra; [|reflexivity].
  now rewrite (receiver_step_invalid_json c msg Hl).
Qed.


(** No session of the plan is cut short by a [KeyboardInterrupt]. *)
Definition never_interrupted (plan : nat -> schedule) : Prop :=
  forall (k : nat) (c : client) (alive : bool),
    snd (one_session loads c alive (plan k)) <> Interrupted.

Lemma run_loop_counts (fuel : nat) (plan : nat -> schedule) :
  never_interrupted plan ->
  forall (c : client) (alive : bool) (retries : nat) c' ev,
  run_loop loads fuel c alive retries plan = Some (c', ev) ->
  List.length (session_chunks ev) = (S max_retries - retries)%nat
  /\ List.length (sleeps ev) = (S max_retries - retries)%nat.
Proof.
  intros Hni.
  induction fuel as [|fuel IH]; intros c alive retries c' ev Hrun.
  - discriminate Hrun.
  - cbn [run_loop] in Hrun.
    destruct (Nat.leb_spec retries max_retries) as [Hle|Hgt].
    + pose proof (one_session_fields c alive (plan retries)) as Hs.
      pose proof (Hni retries c alive) as Hout.
      destruct (one_session loads c alive (plan retries))
        as [[[c1 alive1] ev1] out].
      destruct Hs as (_ & _ & S3 & S4). cbn [snd] in Hout.
      assert (Hred : sleeps (snd (reduce_chunk c1)) = []
                     /\ session_chunks (snd (reduce_chunk c1)) = []).
      { unfold reduce_chunk. destruct (_ <? _)%nat; cbn; auto. }
      destruct (reduce_chunk c1) as [c2 reduced]. cbn [snd] in Hred.
      destruct Hred as [R8 R9].
      destruct out; [| |now contradict Hout];
        (destruct (run_loop loads fuel c2 alive1 (S retries) plan)
           as [[c3 ev3]|] eqn:E; [|discriminate Hrun]);
        inversion Hrun; subst c' ev; clear Hrun;
        destruct (IH c2 alive1 (S retries) c3 ev3 E) as [N1 N2];
        trace_simpl; rewrite S3, S4, R8, R9; cbn [app List.length];
        rewrite ?length_app; cbn [session_chunks sleeps flat_map app List.length];
        clear Hout IH; unfold max_retries in *; split; lia.
    + inversion Hrun; subst c' ev.
      cbn [session_chunks sleeps flat_map List.length].
      unfold max_retries in *. lia.
Qed.

End ClientFacts.

(* ================================================================== *)
(** * The claims on the retry loop *)

Lemma init_client_chunk_ok (toggle : bool) : chunk_ok (init_client toggle).
Proof. split; cbn; [lia | reflexivity]. Qed.

Lemma session_chunks_table (n : nat) :
  (n <= S max_retries)%nat ->
  map chunk_at (seq 0 n) =
  firstn n [4096; 2048; 1024; 1024; 1024; 1024; 1024].
Proof.
  intros H. unfold max_retries in H.
  do 8 (destruct n as [|n]; [reflexivity|]). lia.
Qed.

Lemma run_trace (loads : string -> option json) (toggle : bool)
  (plan : nat -> schedule) :
  exists c ev n m,
    run loads (S (S max_retries)) toggle plan = Some (c, ev)
    /\ (n <= S max_retries)%nat /\ (m <= n <= S m)%nat
    /\ session_chunks ev = map chunk_at (seq 0 n)
    /\ sleeps ev = map backoff_of (seq 1 m)
    /\ (never_interrupted loads plan ->
        n = S max_retries /\ m = S max_retries).
Proof.
  unfold run.
  destruct (run_loop_total loads plan (S (S max_retries))
              (init_client toggle) true 0 ltac:(lia) ltac:(lia))
    as (c & ev & E).
  rewrite E.
  destruct (run_loop_trace loads _ plan (init_client toggle) true 0%nat c ev
              (init_client_chunk_ok toggle) eq_refl E)
    as (n & m & N1 & N2 & N3 & N4).
  pose proof (close_stream_fields (set_stop_threads true c)) as Hc.
  cbn zeta in Hc.
  destruct (close_stream (set_stop_threads true c)) as [c1 closed].
  cbn [fst snd] in Hc. destruct Hc as (_ & _ & _ & _ & _ & C6 & C7 & _).
  exists c1, (ev ++ closed), n, m.
  rewrite session_chunks_app, sleeps_app, C6, C7, !List.app_nil_r.
  split; [reflexivity|]. split; [lia|]. split; [lia|].
  split; [exact N3|]. split; [exact N4|].
  intros Hni.
  destruct (run_loop_counts loads _ plan Hni _ _ _ _ _ E) as [L1 L2].
  rewrite N3, length_map, length_seq in L1.
  rewrite N4, length_map, length_seq in L2. lia.
Qed.

Lemma chunk_at_antitone (i j : nat) :
  (i <= j)%nat -> chunk_at j <= chunk_at i.
Proof.
  intros H. unfold chunk_at.
  destruct i as [|[|[|i]]], j as [|[|[|j]]]; cbn; lia.
Qed.

Lemma nth_map_seq (f : nat -> Z) (n j : nat) :
  (j < n)%nat -> nth j (map f (seq 0 n)) 0 = f j.
Proof.
  intros H.
  rewrite (nth_indep _ 0 (f 0%nat)) by (now rewrite length_map, length_seq).
  rewrite map_nth, seq_nth by exact H. reflexivity.
Qed.

(** C5: over a whole run, whatever happens in the sessions, the chunk
    sizes the sessions are started with are an initial part of
    4096, 2048, 1024, 1024, 1024, 1024, 1024: they never increase, and the
    first six are 4096, 2048, 1024, 1024, 1024, 1024.  After each session
    the index into the table stays or advances by one, never goes back and
    never passes the last entry. *)
Theorem chunk_size_degradation (loads : string -> option json)
  (toggle : bool) (plan : nat -> schedule) :
  exists c ev n,
    run loads (S (S max_retries)) toggle plan = Some (c, ev)
    /\ (n <= S max_retries)%nat
    /\ session_chunks ev = map chunk_at (seq 0 n)
    /\ session_chunks ev =
         firstn n [4096; 2048; 1024; 1024; 1024; 1024; 1024]
    /\ (forall i j, (i <= j < n)%nat ->
          nth j (session_chunks ev) 0 <= nth i (session_chunks ev) 0)
    /\ ((6 <= n)%nat ->
          firstn 6 (session_chunks ev) = [4096; 2048; 1024; 1024; 1024; 1024])
    /\ (never_interrupted loads plan -> n = S max_retries)
    /\ (forall c0 : client, chunk_ok c0 ->
          let c1 := fst (reduce_chunk c0) in
          chunk_ok c1
          /\ (chunk_index c0 <= chunk_index c1 <= S (chunk_index c0))%nat
          /\ (chunk_index c1 <= List.length CHUNK_SIZES - 1)%nat
          /\ current_chunk c1 <= current_chunk c0).
Proof.
  destruct (run_trace loads toggle plan)
    as (c & ev & n & m & E & N1 & N2 & N3 & N4 & N5).
  exists c, ev, n.
  split; [exact E|]. split; [exact N1|]. split; [exact N3|].
  split; [rewrite N3; apply session_chunks_table, N1|].
  split.
  { intros i j Hij. rewrite N3, !nth_map_seq by lia.
    apply chunk_at_antitone. lia. }
  split.
  { intros H6. rewrite N3, session_chunks_table by exact N1.
    unfold max_retries in N1.
    do 6 (destruct n as [|n]; [lia|]).
    destruct n as [|[|n]]; [reflexivity | reflexivity | lia]. }
  split; [intros H; apply N5, H|].
  intros c0 Hok. pose proof (reduce_chunk_spec c0 Hok) as H.
  destruct (reduce_chunk c0) as [c1 ev1]. cbn [fst].
  destruct H as (H1 & H2 & H3 & _ & H5 & _). auto.
Qed.

(** The server closes the data channel as soon as a session has started. *)
Definition closed_at_once (_ : nat) : schedule :=
  mkSchedule true false [Recv ClosedError; MainPoll].

(** C4: when every session fails, the loop starts seven sessions (the
    first one and six retries) and sleeps seven times: 1, 2, 4, 8, 16 and
    32 seconds before the six retries, and 64 seconds more after the last
    failure, before it gives up. *)
Theorem run_backoff_when_every_session_fails
  (loads : string -> option json) (toggle : bool) :
  exists c ev,
    run loads (S (S max_retries)) toggle closed_at_once = Some (c, ev)
    /\ sleeps ev = [1; 2; 4; 8; 16; 32; 64]
    /\ sleeps ev = map backoff_of (seq 1 7)
    /\ sleeps ev <> [1; 2; 4; 8; 16; 32]
    /\ List.length (session_chunks ev) = 7%nat.
Proof.
  destruct toggle; vm_compute; eexists; eexists;
    (split; [reflexivity|]); repeat split; discriminate.
Qed.

(** The same for every plan whose sessions all end on their own. *)
Lemma run_backoff_never_interrupted (loads : string -> option json)
  (toggle : bool) (plan : nat -> schedule) :
  never_interrupted loads plan ->
  exists c ev,
    run loads (S (S max_retries)) toggle plan = Some (c, ev)
    /\ sleeps ev = [1; 2; 4; 8; 16; 32; 64]
    /\ List.length (session_chunks ev) = 7%nat.
Proof.
  intros Hni.
  destruct (run_trace loads toggle plan)
    as (c & ev & n & m & E & N1 & N2 & N3 & N4 & N5).
  destruct (N5 Hni) as [-> ->].
  exists c, ev. split; [exact E|]. split.
  - rewrite N4. reflexivity.
  - rewrite N3. reflexivity.
Qed.

(* ================================================================== *)
(** * The claims on the receiver *)

(** C10: a message [json.loads] rejects is dropped: the receiver prints
    nothing for it, leaves the client (the [running] flag with it) and the
    threads of the session as they are, and goes on with the messages that
    follow exactly as if the message had not come. *)
Theorem receiver_skips_invalid_json (loads : string -> option json)
  (msg : string) :
  loads msg = None ->
  (forall c : client,
     receiver_step loads c (Message msg) = (c, true, [])
     /\ forall inbox, receiver loads c (Message msg :: inbox)
                      = receiver loads c inbox)
  /\ (forall s : sys,
        step loads s (Recv (Message msg)) = (s, [])
        /\ (forall acts, exec loads s (Recv (Message msg) :: acts)
                         = exec loads s acts)
        /\ (forall acts, wait_loop loads s (Recv (Message msg) :: acts)
                         = wait_loop loads s acts)).
Proof.
  intros Hl. split.
  - intros c. pose proof (receiver_step_invalid_json loads c msg Hl) as H.
    split; [exact H|]. intros inbox. cbn [receiver]. rewrite H.
    destruct (receiver loads c inbox). reflexivity.
  - intros s. pose proof (step_invalid_json loads s msg Hl) as H.
    split; [exact H|]. split; intros acts.
    + cbn [exec]. rewrite H. destruct (exec loads s acts). reflexivity.
    + cbn [wait_loop]. rewrite H.
      destruct (wait_loop loads s acts) as [[s1 ev] out]. reflexivity.
Qed.

(** A loader that knows one message, the rejection of the scenario. *)
Definition rejection_text : string := "rejection".

Definition rejection_members : list (string * json) :=
  [ ("type"%string, JStr "error");
    ("error"%string, JStr "data_corruption");
    ("message"%string, JStr "checksum mismatch") ].

Definition loads_rejection (msg : string) : option json :=
  if String.eqb msg rejection_text then Some (JObj rejection_members)
  else None.

Lemma receiver_skips_invalid_json_witness :
  loads_rejection "not json" = None
  /\ receiver loads_rejection (init_client false)
       [Message "not json"; Message rejection_text]
     = receiver loads_rejection (init_client false) [Message rejection_text].
Proof.
  split; [reflexivity|].
  apply (receiver_skips_invalid_json loads_rejection "not json" eq_refl).
Defined.

Lemma session_cleanup_fields (c : client) :
  running (fst (session_cleanup c)) = running c
  /\ chunk_index (fst (session_cleanup c)) = chunk_index c
  /\ current_chunk (fst (session_cleanup c)) = current_chunk c
  /\ submitted (snd (session_cleanup c)) = [].
Proof.
  unfold session_cleanup.
  pose proof (close_stream_fields (set_ws false (set_control_ws false c))) as H.
  cbn zeta in H. destruct H as (H1 & H2 & H3 & _ & H5 & _).
  rewrite H1, H2, H3, H5. repeat split; reflexivity.
Qed.

(** C3: a [data_corruption] error received while a session runs ends that
    session for good: the receiver prints the rejection, clears [running]
    and stops; from then on no action of any thread sets [running] again or
    submits a frame; the wait loop of [one_session] leaves at its next
    poll and [one_session] returns; [run] then counts one more retry,
    moves to the next smaller chunk size if the table has one left,
    announces the reconnection and sleeps the backoff of the new count, and
    starts the next session with that chunk size as long as the count does
    not exceed [max_retries]. *)
Theorem data_corruption_ends_session (loads : string -> option json)
  (c : client) (alive : bool) (sch : schedule) (pre post : list action)
  (msg : string) (members : list (string * json)) :
  connect_ok sch = true ->
  actions sch = pre ++ Recv (Message msg) :: post ->
  loads msg = Some (JObj members) ->
  members_get members "type" = Some (JStr "error") ->
  members_get members "error" = Some (JStr "data_corruption") ->
  let s_pre := fst (exec loads (session_start c alive sch) pre) in
  let ev_pre := snd (exec loads (session_start c alive sch) pre) in
  let s_rej := fst (step loads s_pre (Recv (Message msg))) in
  let rejected := Print (LogRejected (rejection_message members)) in
  running (cl s_pre) = true ->
  receiver_alive s_pre = true ->
  In MainPoll post ->
  snd (step loads s_pre (Recv (Message msg))) = [rejected]
  /\ running (cl s_rej) = false
  /\ receiver_alive s_rej = false
  /\ (forall acts : list action,
        running (cl (fst (exec loads s_rej acts))) = false
        /\ receiver_alive (fst (exec loads s_rej acts)) = false
        /\ submitted (snd (exec loads s_rej acts)) = [])
  /\ exists c1 alive1 ev_post,
       one_session loads c alive sch
       = (c1, alive1, ev_pre ++ rejected :: ev_post, Returned)
       /\ running c1 = false
       /\ submitted ev_post = []
       /\ forall (fuel retries : nat) (plan : nat -> schedule),
            plan retries = sch -> (retries <= max_retries)%nat ->
            chunk_ok c ->
            let c2 := fst (reduce_chunk c1) in
            let backoff := backoff_of (S retries) in
            run_loop loads (S fuel) c alive retries plan
            = match run_loop loads fuel c2 alive1 (S retries) plan with
              | Some (c3, ev3) =>
                  Some (c3,
                        Print (LogUsingChunk (current_chunk c)) ::
                        (ev_pre ++ rejected :: ev_post) ++
                        snd (reduce_chunk c1) ++
                        [Print (LogReconnecting backoff (S retries));
                         Sleep backoff] ++ ev3)
              | None => None
              end
            /\ backoff = 2 ^ Z.of_nat retries
            /\ ((chunk_index c < List.length CHUNK_SIZES - 1)%nat ->
                chunk_index c2 = S (chunk_index c)
                /\ current_chunk c2 < current_chunk c)
            /\ ((S retries <= max_retries)%nat ->
                forall fuel' c3 ev3,
                  run_loop loads (S fuel') c2 alive1 (S retries) plan
                  = Some (c3, ev3) ->
                  exists rest,
                    ev3 = Print (LogUsingChunk (current_chunk c2)) :: rest)
            /\ ((max_retries < S retries)%nat ->
                forall fuel',
                  run_loop loads (S fuel') c2 alive1 (S retries) plan
                  = Some (c2, [])).
Proof.
  intros Hconn Hacts Hl Ht He s_pre ev_pre s_rej rejected Hrun Halive Hpoll.
  assert (Hstep : step loads s_pre (Recv (Message msg)) =
                  (mkSys (set_running false (cl s_pre)) (was_active s_pre)
                     (worker s_pre) false (stdin_alive s_pre), [rejected])).
  { cbn [step]. rewrite Halive.
    rewrite (receiver_step_rejects loads _ msg members Hl Ht He).
    reflexivity. }
  assert (Hrej_run : running (cl s_rej) = false)
    by (unfold s_rej; rewrite Hstep; reflexivity).
  assert (Hrej_recv : receiver_alive s_rej = false)
    by (unfold s_rej; rewrite Hstep; reflexivity).
  split; [rewrite Hstep; reflexivity|].
  split; [exact Hrej_run|]. split; [exact Hrej_recv|].
  split.
  { intros acts. pose proof (exec_fields loads s_rej acts) as H.
    destruct (exec loads s_rej acts) as [s2 ev2]. cbn [fst snd].
    destruct H as (H1 & H2 & _ & _ & _ & _ & H7). auto. }
  destruct (wait_loop_returns loads s_rej post Hrej_run Hpoll)
    as (s3 & ev3 & Hw & Hr3 & Hs3).
  pose proof (session_cleanup_fields (cl s3)) as (K1 & K2 & K3 & K4).
  exists (fst (session_cleanup (cl s3))), (stdin_alive s3),
         (ev3 ++ snd (session_cleanup (cl s3))).
  assert (Hsession :
    one_session loads c alive sch =
    (fst (session_cleanup (cl s3)), stdin_alive s3,
     ev_pre ++ rejected :: ev3 ++ snd (session_cleanup (cl s3)), Returned)).
  { unfold one_session. rewrite Hconn, Hacts.
    rewrite (wait_loop_prefix loads _ pre _ Hrun).
    fold s_pre ev_pre.
    destruct (exec loads (session_start c alive sch) pre) as [s1 e1] eqn:Ee.
    cbn [fst snd] in *. subst s_pre ev_pre.
    cbn [wait_loop]. unfold s_rej in Hw. 
    destruct (step loads s1 (Recv (Message msg))) as [s2 e2] eqn:Es.
    inversion Hstep; subst s2 e2. cbn [fst] in Hw. rewrite Hw.
    destruct (session_cleanup (cl s3)) as [c4 closed]. cbn [fst snd].
    rewrite <- !app_assoc. reflexivity. }
  split; [exact Hsession|].
  split; [rewrite K1; exact Hr3|].
  split; [rewrite submitted_app, Hs3, K4; reflexivity|].
  intros fuel retries plan Hplan Hle Hok c2 backoff.
  pose proof (one_session_fields loads c alive sch) as Hf.
  rewrite Hsession in Hf. destruct Hf as (F1 & F2 & _ & _).
  assert (Hok1 : chunk_ok (fst (session_cleanup (cl s3))))
    by (unfold chunk_ok in *; rewrite F1, F2; exact Hok).
  pose proof (reduce_chunk_spec _ Hok1) as Hred.
  split.
  { rewrite <- Hplan in Hsession.
    exact (run_loop_returned loads fuel plan c alive retries _ _ _
             Hle Hsession). }
  split.
  { unfold backoff, backoff_of, base_backoff.
    rewrite Nat2Z.inj_succ, Z.mul_1_l. f_equal. lia. }
  unfold c2. destruct (reduce_chunk (fst (session_cleanup (cl s3))))
    as [c2' reduced]. cbn [fst].
  destruct Hred as (_ & _ & _ & _ & _ & R6 & _).
  split.
  { intros Hlt. rewrite <- F1, <- F2. apply R6. rewrite F1. exact Hlt. }
  split.
  { intros Hnext fuel' c3 ev3' Hr.
    exact (proj2 (run_loop_next loads fuel' plan c2' (stdin_alive s3)
                    (S retries)) Hnext c3 ev3' Hr). }
  intros Hlast fuel'.
  exact (proj1 (run_loop_next loads fuel' plan c2' (stdin_alive s3)
                  (S retries)) Hlast).
Qed.

Lemma data_corruption_ends_session_witness :
  exists c1 alive1 ev_post,
    one_session loads_rejection (init_client false) true
      (mkSchedule true false
         [KeyPress KeySpace; Recv (Message rejection_text); MainPoll])
    = (c1, alive1,
       [Print LogPttOn] ++
       Print (LogRejected (JStr "checksum mismatch")) :: ev_post,
       Returned)
    /\ running c1 = false
    /\ submitted ev_post = [].
Proof.
  destruct (data_corruption_ends_session loads_rejection
              (init_client false) true
              (mkSchedule true false
                 [KeyPress KeySpace; Recv (Message rejection_text); MainPoll])
              [KeyPress KeySpace] [MainPoll]
              rejection_text rejection_members
              eq_refl eq_refl eq_refl eq_refl eq_refl
              eq_refl eq_refl (or_introl eq_refl))
    as (_ & _ & _ & _ & c1 & alive1 & ev_post & H1 & H2 & H3 & _).
  exists c1, alive1, ev_post. split; [exact H1|]. split; assumption.
Defined.

(* ================================================================== *)
(** * The claims on push-to-talk and on the capture loop *)

Lemma count_finalize_tail (c : client) (t1 t2 : Z) :
  count_finalize (tail_frames c t1 t2) = 0%nat.
Proof.
  unfold tail_frames.
  destruct (ws c); [|reflexivity].
  destruct (frame SAMPLE_RATE t1 (silent c)); [|reflexivity].
  destruct (loop c); [|reflexivity].
  destruct (frame SAMPLE_RATE t2 (silent c)); reflexivity.
Qed.

Lemma count_finalize_close (c : client) :
  count_finalize (snd (close_stream c)) = 0%nat.
Proof.
  unfold close_stream. destruct (stream c); reflexivity.
Qed.

Lemma count_finalize_read (c : client) (r : read_outcome) (t : Z) :
  count_finalize (snd (worker_read c r t)) = 0%nat
  /\ running (fst (worker_read c r t)) = running c
  /\ stop_threads (fst (worker_read c r t)) = stop_threads c
  /\ ptt_active (fst (worker_read c r t)) = ptt_active c
  /\ loop (fst (worker_read c r t)) = loop c
  /\ ws (fst (worker_read c r t)) = ws c
  /\ toggle_mode (fst (worker_read c r t)) = toggle_mode c.
Proof.
  unfold worker_read. destruct r as [audio|]; [|cbn; auto 10].
  destruct (frame SAMPLE_RATE t audio); [|cbn; auto 10].
  destruct (ws c && running c); [|cbn; auto 10].
  destruct (loop c) eqn:E; cbn; auto 10.
Qed.

(** The capture loop sees the client go from active to inactive. *)
Lemma worker_top_deactivated (c : client) (t1 t2 : Z) (open_ok : bool) :
  running c = true -> stop_threads c = false -> ptt_active c = false ->
  worker_top c true t1 t2 open_ok =
  (fst (close_stream c), false, AtLoopTop,
   tail_frames c t1 t2 ++ (if loop c then [StopAndClear] else [])
   ++ snd (close_stream c)).
Proof.
  intros Hr Hs Hp. unfold worker_top. rewrite Hr, Hs, Hp. cbn [orb negb].
  destruct (close_stream c). reflexivity.
Qed.

Definition space : ascii := " ".

(** C6, as the code has it.  Hotkey: once a session has set the event
    loop, a press of the space key followed at once by its release leaves
    the client inactive and asks for exactly one finalize-now, the one of
    the release handler.  Toggle: two toggles in a row give back the
    activation the client had, and the toggle handler asks for no
    finalize-now; when the capture loop has seen the client active in
    between and then finds it inactive, it is the capture loop that asks
    for the finalize-now, once. *)
Theorem activation_finalize_counts (loads : string -> option json) (s : sys) :
  stop_threads (cl s) = false ->
  (toggle_mode (cl s) = false -> loop (cl s) = true ->
   let r := exec loads s [KeyPress KeySpace; KeyRelease KeySpace] in
   ptt_active (cl (fst r)) = false /\ count_finalize (snd r) = 1%nat)
  /\ (toggle_mode (cl s) = true -> stdin_alive s = true ->
      let r := exec loads s [StdinChar space; StdinChar space] in
      ptt_active (cl (fst r)) = ptt_active (cl s)
      /\ count_finalize (snd r) = 0%nat)
  /\ (toggle_mode (cl s) = true -> stdin_alive s = true ->
      running (cl s) = true -> loop (cl s) = true ->
      ptt_active (cl s) = false ->
      was_active s = false -> worker s = AtLoopTop ->
      forall (t0 t0' t t1 t2 : Z) (ok : bool) (r : read_outcome),
      let before :=
        exec loads s [StdinChar space; WorkerTop t0 t0' true;
                      StdinChar space; WorkerRead r t] in
      let after := step loads (fst before) (WorkerTop t1 t2 ok) in
      ptt_active (cl (fst after)) = ptt_active (cl s)
      /\ count_finalize (snd before) = 0%nat
      /\ count_finalize (snd after) = 1%nat
      /\ count_finalize (snd (step loads (fst after) (WorkerTop t1 t2 ok)))
         = 0%nat).
Proof.
  intros Hstop. destruct s as [c was pc ra sa]. cbn [cl stdin_alive] in *.
  split; [|split].
  - intros Htm Hloop. cbn [exec step cl]. rewrite Htm.
    unfold on_press. destruct (ptt_active c) eqn:Hp.
    + cbn [with_cl cl step]. rewrite Htm. unfold on_release. rewrite Hp, Hloop.
      cbn. auto.
    + cbn [with_cl cl step toggle_mode set_ptt_active].
      rewrite Htm. unfold on_release.
      cbn [ptt_active set_ptt_active loop]. rewrite Hloop. cbn. auto.
  - intros Htm Hsa. subst sa. cbn [exec step cl stdin_alive].
    rewrite Htm, Hstop. cbn [andb negb]. unfold toggle_stdin.
    cbn [Ascii.eqb space Bool.eqb]. cbn [cl stdin_alive toggle_mode
      set_ptt_active stop_threads ptt_active]. rewrite Htm, Hstop.
    cbn. rewrite negb_involutive. auto.
  - cbn [was_active worker].
    intros Htm Hsa Hrun Hloop Hp Hwas Hpc t0 t0' t t1 t2 ok r.
    subst sa was pc.
    destruct c as [rn st i sz pa tm cs sm w cw lp]. cbn in Hstop, Htm, Hrun,
      Hloop, Hp. subst st tm rn lp pa.
    set (c3 := mkClient true false i sz false true cs true w cw true).
    assert (H3 : exists ev3,
      exec loads
        (mkSys (mkClient true false i sz false true cs sm w cw true)
           false AtLoopTop ra true)
        [StdinChar space; WorkerTop t0 t0' true; StdinChar space]
      = (mkSys c3 true InRead ra true, ev3)
      /\ count_finalize ev3 = 0%nat).
    { destruct sm; eexists; split; reflexivity. }
    destruct H3 as (ev3 & H3 & F3).
    set (before := exec loads _ [StdinChar space; WorkerTop t0 t0' true;
                                 StdinChar space; WorkerRead r t]).
    set (after := step loads (fst before) (WorkerTop t1 t2 ok)).
    assert (Hbefore : before =
      (mkSys (fst (worker_read c3 r t)) true AtLoopTop ra true,
       ev3 ++ snd (worker_read c3 r t))).
    { unfold before.
      change [StdinChar space; WorkerTop t0 t0' true; StdinChar space;
              WorkerRead r t]
        with ([StdinChar space; WorkerTop t0 t0' true; StdinChar space]
              ++ [WorkerRead r t]).
      rewrite exec_app, H3. cbn [exec step worker cl was_active
        receiver_alive stdin_alive].
      destruct (worker_read c3 r t) as [c4 ev4]. cbn [fst snd].
      now rewrite List.app_nil_r. }
    pose proof (count_finalize_read c3 r t)
      as (R0 & R1 & R2 & R3 & R4 & R5 & R6).
    cbn in R1, R2, R3, R4, R5, R6.
    set (c4 := fst (worker_read c3 r t)) in *.
    assert (Hafter : after =
      (mkSys (fst (close_stream c4)) false AtLoopTop ra true,
       tail_frames c4 t1 t2 ++ [StopAndClear] ++ snd (close_stream c4))).
    { unfold after. rewrite Hbefore. cbn [fst step worker cl was_active
        receiver_alive stdin_alive].
      rewrite (worker_top_deactivated c4 t1 t2 ok R1 R2 R3), R4.
      reflexivity. }
    rewrite Hafter, Hbefore. cbn [fst snd cl].
    pose proof (close_stream_fields c4) as Hc. cbn zeta in Hc.
    destruct Hc as (C1 & _ & _ & C4 & _).
    split; [rewrite C4; exact R3|].
    split; [rewrite count_finalize_app, F3, R0; reflexivity|].
    split.
    { rewrite !count_finalize_app, count_finalize_tail, count_finalize_close.
      reflexivity. }
    cbn [step worker cl was_active]. unfold worker_top.
    assert (Hst : stop_threads (fst (close_stream c4)) = false).
    { unfold close_stream. destruct (stream c4); cbn; exact R2. }
    rewrite Hst, C1, R1, C4, R3. reflexivity.
Qed.

Lemma activation_finalize_counts_witness :
  (let r := exec loads_rejection
              (session_start (init_client false) true
                 (mkSchedule true false []))
              [KeyPress KeySpace; KeyRelease KeySpace] in
   ptt_active (cl (fst r)) = false /\ count_finalize (snd r) = 1%nat)
  /\ (let r := exec loads_rejection
                 (session_start (init_client true) true
                    (mkSchedule true false []))
                 [StdinChar space; StdinChar space] in
      ptt_active (cl (fst r)) = false /\ count_finalize (snd r) = 0%nat).
Proof.
  split.
  - apply (activation_finalize_counts loads_rejection
             (session_start (init_client false) true
                (mkSchedule true false [])) eq_refl); reflexivity.
  - apply (activation_finalize_counts loads_rejection
             (session_start (init_client true) true
                (mkSchedule true false [])) eq_refl); reflexivity.
Defined.

(** Toggle modality, two toggles in a row during a session: no
    finalize-now is asked for, neither by the toggles nor by the capture
    loop afterwards, which has never seen the client active. *)
Lemma toggle_twice_asks_no_finalize :
  let s := session_start (init_client true) true (mkSchedule true false []) in
  let r := exec loads_rejection s
             [StdinChar space; StdinChar space;
              WorkerTop 0 0 true; WorkerTop 0 0 true] in
  toggle_mode (cl s) = true
  /\ ptt_active (cl (fst r)) = ptt_active (cl s)
  /\ count_finalize (snd r) = 0%nat
  /\ count_finalize (snd r) <> 1%nat.
Proof.
  cbv zeta. repeat split; try reflexivity. vm_compute. discriminate.
Qed.

(** ** The tail of a deactivation *)

Lemma silent_length (c : client) :
  chunk_ok c ->
  len (silent c) = 2 * current_chunk c
  /\ Nat.even (List.length (silent c)) = true
  /\ len (silent c) <= PY_SSIZE_T_MAX
  /\ len (silent c) / 2 = current_chunk c.
Proof.
  intros [Hi Hc]. unfold silent, len. rewrite repeat_length.
  assert (Hz : 0 <= current_chunk c <= 4096).
  { rewrite Hc. destruct (chunk_index c) as [|[|[|i]]]; cbn in *; lia. }
  rewrite Z2Nat.inj_mul by lia. rewrite Nat.even_mul, orb_true_r.
  rewrite Nat2Z.inj_mul, Z2Nat.id by lia.
  change (Z.of_nat (Z.to_nat 2)) with 2.
  rewrite Z.div_mul by lia. unfold PY_SSIZE_T_MAX.
  repeat split; try reflexivity; lia.
Qed.

Lemma silent_frame (c : client) (t : Z) :
  chunk_ok c -> int_in_range t ->
  exists f meta,
    frame SAMPLE_RATE t (silent c) = Ok f
    /\ reference_decode f = Some (meta, silent c)
    /\ dict_get meta "dataLength" = Some (PyInt (current_chunk c))
    /\ dict_get meta "sampleRate" = Some (PyInt SAMPLE_RATE).
Proof.
  intros Hok Ht. destruct (silent_length c Hok) as (L1 & L2 & L3 & L4).
  assert (Hs : int_in_range SAMPLE_RATE) by reflexivity.
  destruct (frame_even SAMPLE_RATE t (silent c) L2 Hs Ht L3)
    as (prefix & _ & _ & F & _ & D).
  rewrite L4 in F, D.
  eexists. eexists. split; [exact F|]. split; [exact D|].
  split; reflexivity.
Qed.

Lemma tail_frames_ok (c : client) (t1 t2 : Z) :
  ws c = true -> loop c = true -> chunk_ok c ->
  int_in_range t1 -> int_in_range t2 ->
  exists f1 f2 meta1 meta2,
    tail_frames c t1 t2 = [Submit f1; Submit f2]
    /\ frame SAMPLE_RATE t1 (silent c) = Ok f1
    /\ frame SAMPLE_RATE t2 (silent c) = Ok f2
    /\ reference_decode f1 = Some (meta1, silent c)
    /\ reference_decode f2 = Some (meta2, silent c)
    /\ dict_get meta1 "dataLength" = Some (PyInt (current_chunk c))
    /\ dict_get meta2 "dataLength" = Some (PyInt (current_chunk c)).
Proof.
  intros Hw Hl Hok H1 H2.
  destruct (silent_frame c t1 Hok H1) as (f1 & m1 & F1 & D1 & L1 & _).
  destruct (silent_frame c t2 Hok H2) as (f2 & m2 & F2 & D2 & L2 & _).
  exists f1, f2, m1, m2. unfold tail_frames. rewrite Hw, Hl, F1, F2.
  repeat split; assumption.
Qed.

(** One pass of the capture loop per captured buffer: the [while] test,
    then the read that returns the buffer at clock reading [t]. *)
Fixpoint capture_actions (reads : list (Z * bytes)) : list action :=
  match reads with
  | [] => []
  | (t, audio_bytes) :: rest =>
      WorkerTop 0 0 true :: WorkerRead (ReadOk audio_bytes) t
      :: capture_actions rest
  end.

(** The capture loop is capturing: the client is active in a running
    session and the loop is back at its [while] test. *)
Definition capturing (s : sys) : Prop :=
  worker s = AtLoopTop /\ was_active s = true
  /\ running (cl s) = true /\ stop_threads (cl s) = false
  /\ ptt_active (cl s) = true /\ ws (cl s) = true /\ loop (cl s) = true.

Definition frames_of (reads : list (Z * bytes)) : list bytes :=
  flat_map (fun r => match frame SAMPLE_RATE (fst r) (snd r) with
                     | Ok f => [f]
                     | Raise _ => []
                     end) reads.

Definition frame_audio (f : bytes) : option bytes :=
  option_map snd (reference_decode f).

Definition well_formed_read (r : Z * bytes) : Prop :=
  int_in_range (fst r) /\ Nat.even (List.length (snd r)) = true
  /\ len (snd r) <= PY_SSIZE_T_MAX.

Lemma capture_in_order (loads : string -> option json)
  (reads : list (Z * bytes)) :
  forall s : sys, capturing s ->
  submitted (snd (exec loads s (capture_actions reads))) = frames_of reads
  /\ capturing (fst (exec loads s (capture_actions reads))).
Proof.
  induction reads as [|[t audio] reads IH]; intros s Hcap.
  - cbn. auto.
  - destruct Hcap as (Hpc & Hwas & Hr & Hst & Hp & Hw & Hl).
    destruct s as [c was pc ra sa]. cbn [cl was_active worker] in *.
    subst pc was.
    cbn [capture_actions exec]. cbn [step worker cl was_active].
    unfold worker_top. rewrite Hr, Hst, Hp. cbn [orb negb].
    cbn [step worker cl was_active receiver_alive stdin_alive].
    unfold worker_read, frames_of. cbn [flat_map fst snd].
    fold (frames_of reads).
    destruct (frame SAMPLE_RATE t audio) as [f|e].
    + rewrite Hw, Hr, Hl. cbn [andb].
      match goal with
      | |- context [exec loads ?s1 (capture_actions reads)] =>
          destruct (IH s1) as [I1 I2];
          [repeat split; assumption|];
          destruct (exec loads s1 (capture_actions reads)) as [s2 ev2]
      end.
      cbn [fst snd app] in *.
      change (submitted (Submit f :: ev2)) with (f :: submitted ev2).
      rewrite I1. auto.
    + match goal with
      | |- context [exec loads ?s1 (capture_actions reads)] =>
          destruct (IH s1) as [I1 I2];
          [repeat split; assumption|];
          destruct (exec loads s1 (capture_actions reads)) as [s2 ev2]
      end.
      cbn [fst snd app] in *.
      change (submitted (Print LogAudioSendError :: ev2))
        with (submitted ev2).
      rewrite I1. auto.
Qed.

Lemma frames_of_audio (reads : list (Z * bytes)) :
  Forall well_formed_read reads ->
  map frame_audio (frames_of reads) = map (fun r => Some (snd r)) reads.
Proof.
  induction 1 as [|[t audio] reads (Ht & He & Hl) _ IH]; [reflexivity|].
  unfold frames_of. cbn [flat_map fst snd] in *. fold (frames_of reads).
  assert (Hs : int_in_range SAMPLE_RATE) by reflexivity.
  destruct (frame_even SAMPLE_RATE t audio He Hs Ht Hl)
    as (prefix & _ & _ & F & _ & D).
  rewrite F. cbn [app map]. rewrite IH. unfold frame_audio at 1.
  rewrite D. reflexivity.
Qed.

(** C7, as the code has it.  When the capture loop, having captured,
    finds the client inactive in a running session with the data channel
    open, it submits exactly two frames of silence, each of the current
    chunk size, then asks for the finalize-now, then closes the stream, and
    does so once for that deactivation.  In hotkey modality the release
    handler has asked for a finalize-now of its own at the release, so
    ahead of the tail.  Captured buffers are submitted in the order of
    their capture. *)
Theorem tail_silence_then_finalize (loads : string -> option json)
  (s : sys) (t1 t2 : Z) (open_ok : bool) :
  worker s = AtLoopTop -> was_active s = true ->
  running (cl s) = true -> stop_threads (cl s) = false ->
  ptt_active (cl s) = false -> ws (cl s) = true -> loop (cl s) = true ->
  chunk_ok (cl s) -> int_in_range t1 -> int_in_range t2 ->
  (exists f1 f2 meta1 meta2,
     snd (step loads s (WorkerTop t1 t2 open_ok))
     = [Submit f1; Submit f2; StopAndClear] ++ snd (close_stream (cl s))
     /\ frame SAMPLE_RATE t1 (silent (cl s)) = Ok f1
     /\ frame SAMPLE_RATE t2 (silent (cl s)) = Ok f2
     /\ reference_decode f1 = Some (meta1, silent (cl s))
     /\ reference_decode f2 = Some (meta2, silent (cl s))
     /\ dict_get meta1 "dataLength" = Some (PyInt (current_chunk (cl s)))
     /\ dict_get meta2 "dataLength" = Some (PyInt (current_chunk (cl s)))
     /\ silent (cl s)
        = repeat x00 (Z.to_nat (current_chunk (cl s) * 2))
     /\ len (silent (cl s)) = 2 * current_chunk (cl s))
  /\ was_active (fst (step loads s (WorkerTop t1 t2 open_ok))) = false
  /\ (forall t1' t2' ok',
        snd (step loads (fst (step loads s (WorkerTop t1 t2 open_ok)))
               (WorkerTop t1' t2' ok')) = [])
  /\ (forall s' : sys,
        toggle_mode (cl s') = false -> ptt_active (cl s') = true ->
        loop (cl s') = true ->
        step loads s' (KeyRelease KeySpace)
        = (with_cl (set_ptt_active false (cl s')) s',
           [Print LogPttOff; StopAndClear]))
  /\ (forall (s' : sys) (reads : list (Z * bytes)),
        capturing s' ->
        submitted (snd (exec loads s' (capture_actions reads)))
        = frames_of reads
        /\ (Forall well_formed_read reads ->
            map frame_audio
              (submitted (snd (exec loads s' (capture_actions reads))))
            = map (fun r => Some (snd r)) reads)).
Proof.
  intros Hpc Hwas Hr Hst Hp Hw Hl Hok H1 H2.
  destruct s as [c was pc ra sa]. cbn [cl was_active worker] in *.
  subst pc was.
  assert (Hstep : step loads (mkSys c true AtLoopTop ra sa)
                    (WorkerTop t1 t2 open_ok)
                  = (mkSys (fst (close_stream c)) false AtLoopTop ra sa,
                     tail_frames c t1 t2 ++ [StopAndClear]
                     ++ snd (close_stream c))).
  { cbn [step worker cl was_active receiver_alive stdin_alive].
    rewrite (worker_top_deactivated c t1 t2 open_ok Hr Hst Hp), Hl.
    reflexivity. }
  rewrite Hstep. cbn [fst snd was_active].
  split.
  { destruct (tail_frames_ok c t1 t2 Hw Hl Hok H1 H2)
      as (f1 & f2 & m1 & m2 & T & F1 & F2 & D1 & D2 & L1 & L2).
    exists f1, f2, m1, m2. rewrite T.
    destruct (silent_length c Hok) as (S1 & _).
    repeat split; try assumption; reflexivity. }
  split; [reflexivity|].
  split.
  { intros t1' t2' ok'. cbn [step worker cl was_active]. unfold worker_top.
    pose proof (close_stream_fields c) as Hc. cbn zeta in Hc.
    destruct Hc as (C1 & _ & _ & C4 & _).
    assert (Hst' : stop_threads (fst (close_stream c)) = false).
    { unfold close_stream. destruct (stream c); cbn; exact Hst. }
    rewrite Hst', C1, Hr, C4, Hp. reflexivity. }
  split.
  { intros s' Htm Hpa Hlp. cbn [step]. rewrite Htm. unfold on_release.
    rewrite Hpa, Hlp. reflexivity. }
  intros s' reads Hcap.
  destruct (capture_in_order loads reads s' Hcap) as [Hsub _].
  split; [exact Hsub|].
  intros Hwf. rewrite Hsub. apply frames_of_audio, Hwf.
Qed.

(** A hotkey client that has captured one buffer and is back at the
    [while] test of the capture loop, the space key still down. *)
Definition holding_space : sys :=
  mkSys (mkClient true false 0 4096 true false 1 true true false true)
    true AtLoopTop true true.

(** The state is the one a session is in after the key press, one pass of
    the capture loop and one buffer read. *)
Lemma holding_space_reached :
  exists f,
    exec loads_rejection
      (session_start (init_client false) true (mkSchedule true false []))
      [KeyPress KeySpace; WorkerTop 0 0 true;
       WorkerRead (ReadOk (repeat x00 (Z.to_nat 8192))) 1700000000000]
    = (holding_space, [Print LogPttOn; OpenStream 4096; Submit f]).
Proof.
  assert (He : Nat.even (List.length (repeat x00 (Z.to_nat 8192))) = true)
    by (rewrite repeat_length; reflexivity).
  assert (Hl : len (repeat x00 (Z.to_nat 8192)) <= PY_SSIZE_T_MAX)
    by (unfold len; rewrite repeat_length; discriminate).
  destruct (frame_even SAMPLE_RATE 1700000000000
              (repeat x00 (Z.to_nat 8192)) He eq_refl eq_refl Hl)
    as (prefix & _ & _ & F & _).
  eexists.
  change [KeyPress KeySpace; WorkerTop 0 0 true;
          WorkerRead (ReadOk (repeat x00 (Z.to_nat 8192))) 1700000000000]
    with ([KeyPress KeySpace; WorkerTop 0 0 true]
          ++ [WorkerRead (ReadOk (repeat x00 (Z.to_nat 8192)))
                1700000000000]).
  rewrite exec_app.
  replace (exec loads_rejection
             (session_start (init_client false) true
                (mkSchedule true false []))
             [KeyPress KeySpace; WorkerTop 0 0 true])
    with (mkSys (mkClient true false 0 4096 true false 0 true true false true)
            true InRead true true,
          [Print LogPttOn; OpenStream 4096]) by reflexivity.
  cbn [exec step worker cl was_active receiver_alive stdin_alive].
  unfold worker_read. rewrite F. reflexivity.
Qed.

Lemma tail_silence_then_finalize_witness :
  let s := fst (step loads_rejection holding_space (KeyRelease KeySpace)) in
  exists f1 f2 meta1 meta2,
    snd (step loads_rejection s
           (WorkerTop 1700000000256 1700000000257 true))
    = [Submit f1; Submit f2; StopAndClear] ++ snd (close_stream (cl s))
    /\ reference_decode f1 = Some (meta1, silent (cl s))
    /\ reference_decode f2 = Some (meta2, silent (cl s))
    /\ dict_get meta1 "dataLength" = Some (PyInt 4096)
    /\ dict_get meta2 "dataLength" = Some (PyInt 4096).
Proof.
  intros s.
  assert (Hok : chunk_ok (cl s)) by (split; [cbn; lia | reflexivity]).
  destruct (tail_silence_then_finalize loads_rejection s
              1700000000256 1700000000257 true
              eq_refl eq_refl eq_refl eq_refl eq_refl eq_refl eq_refl
              Hok eq_refl eq_refl)
    as ((f1 & f2 & m1 & m2 & E & _ & _ & D1 & D2 & L1 & L2 & _) & _).
  exists f1, f2, m1, m2.
  split; [exact E|]. split; [exact D1|]. split; [exact D2|].
  split; [exact L1 | exact L2].
Defined.

(** What follows the release in a trace. *)
Fixpoint after_release (evs : list event) : list event :=
  match evs with
  | [] => []
  | Print LogPttOff :: rest => rest
  | _ :: rest => after_release rest
  end.

(** Every finalize-now after the release comes after two submitted
    frames. *)
Definition finalize_only_after_tail (evs : list event) : Prop :=
  forall pre post,
    after_release evs = pre ++ StopAndClear :: post ->
    (2 <= List.length (submitted pre))%nat.

(** Hotkey modality: the space key is released while the client
    captures.  The release handler asks for the finalize-now before the
    capture loop has submitted any tail frame. *)
Lemma release_finalizes_before_tail :
  let evs :=
    snd (exec loads_rejection holding_space
           [KeyRelease KeySpace;
            WorkerTop 1700000000256 1700000000257 true]) in
  (exists f1 f2,
     evs = [Print LogPttOff; StopAndClear;
            Submit f1; Submit f2; StopAndClear; CloseStream])
  /\ ~ finalize_only_after_tail evs.
Proof.
  cbv zeta.
  set (s := fst (step loads_rejection holding_space (KeyRelease KeySpace))).
  assert (Hok : chunk_ok (cl s)) by (split; [cbn; lia | reflexivity]).
  destruct (tail_frames_ok (cl s) 1700000000256 1700000000257
              eq_refl eq_refl Hok eq_refl eq_refl)
    as (f1 & f2 & m1 & m2 & T & _).
  assert (E : snd (step loads_rejection s
                     (WorkerTop 1700000000256 1700000000257 true))
              = [Submit f1; Submit f2; StopAndClear]
                ++ snd (close_stream (cl s))).
  { cbn [step]. replace (worker s) with AtLoopTop by reflexivity.
    replace (was_active s) with true by reflexivity.
    rewrite (worker_top_deactivated (cl s) 1700000000256 1700000000257 true
               eq_refl eq_refl eq_refl), T.
    reflexivity. }
  assert (H : snd (exec loads_rejection holding_space
                     [KeyRelease KeySpace;
                      WorkerTop 1700000000256 1700000000257 true])
              = [Print LogPttOff; StopAndClear;
                 Submit f1; Submit f2; StopAndClear; CloseStream]).
  { change [KeyRelease KeySpace;
            WorkerTop 1700000000256 1700000000257 true]
      with ([KeyRelease KeySpace]
            ++ [WorkerTop 1700000000256 1700000000257 true]).
    rewrite exec_app.
    replace (exec loads_rejection holding_space [KeyRelease KeySpace])
      with (s, [Print LogPttOff; StopAndClear]) by reflexivity.
    cbn [exec].
    destruct (step loads_rejection s
                (WorkerTop 1700000000256 1700000000257 true)) as [s1 ev1].
    cbn [snd] in *. rewrite E. reflexivity. }
  split; [exists f1, f2; exact H|].
  rewrite H. intros Hf.
  specialize (Hf [] [Submit f1; Submit f2; StopAndClear; CloseStream] eq_refl).
  cbn in Hf. lia.
Qed.

(* ================================================================== *)
(** * Further properties of the checksum and of [frame] *)

From Stdlib Require Import Permutation.

Lemma samples16_app (a b : bytes) :
  Nat.even (List.length a) = true ->
  samples16 (a ++ b) = samples16 a ++ samples16 b.
Proof.
  revert a.
  apply (even_length_ind _
           (fun a => samples16 (a ++ b) = samples16 a ++ samples16 b)).
  - reflexivity.
  - intros x y l _ IH. cbn [app samples16]. now rewrite IH.
Qed.

Lemma sum_Z_app (l1 l2 : list Z) : sum_Z (l1 ++ l2) = sum_Z l1 + sum_Z l2.
Proof.
  induction l1 as [|x l1 IH]; [reflexivity|].
  change (sum_Z ((x :: l1) ++ l2)) with (x + sum_Z (l1 ++ l2)).
  change (sum_Z (x :: l1)) with (x + sum_Z l1). lia.
Qed.

Lemma sum_Z_perm (l1 l2 : list Z) : Permutation l1 l2 -> sum_Z l1 = sum_Z l2.
Proof.
  induction 1 as [|x l l' _ IH|x y l|l l' l'' _ IH1 _ IH2].
  - reflexivity.
  - change (x + sum_Z l = x + sum_Z l'). lia.
  - change (y + (x + sum_Z l) = x + (y + sum_Z l)). lia.
  - congruence.
Qed.

Lemma checksum_int16_ok_even (a : bytes) (c : Z) :
  checksum_int16 a = Ok c -> Nat.even (List.length a) = true.
Proof.
  intros H. destruct (Nat.even (List.length a)) eqn:E; [reflexivity|].
  unfold checksum_int16 in H. rewrite (frombuffer_odd a E) in H.
  discriminate H.
Qed.

(** The checksum of two buffers put end to end is the sum of their
    checksums, modulo [2^32]. *)
Theorem checksum_int16_concat (a b : bytes) (ca cb : Z) :
  checksum_int16 a = Ok ca -> checksum_int16 b = Ok cb ->
  checksum_int16 (a ++ b) = Ok ((ca + cb) mod 2 ^ 32).
Proof.
  intros Ha Hb.
  pose proof (checksum_int16_ok_even a ca Ha) as Ea.
  pose proof (checksum_int16_ok_even b cb Hb) as Eb.
  assert (Eab : Nat.even (List.length (a ++ b)) = true).
  { rewrite length_app, Nat.even_add, Ea, Eb. reflexivity. }
  rewrite (checksum_int16_even a Ea) in Ha.
  rewrite (checksum_int16_even b Eb) in Hb.
  inversion Ha; inversion Hb; subst ca cb.
  rewrite (checksum_int16_even _ Eab). f_equal.
  unfold checksum16_spec. rewrite !land_mask32.
  rewrite (samples16_app a b Ea), sum_Z_app.
  rewrite <- Zplus_mod. reflexivity.
Qed.

Lemma checksum_int16_concat_witness :
  checksum_int16 ([xff; x7f] ++ [x01; x00; x02; x00])
  = Ok ((32767 + 3) mod 2 ^ 32).
Proof.
  apply (checksum_int16_concat [xff; x7f] [x01; x00; x02; x00] 32767 3);
    reflexivity.
Defined.

(** The checksum does not see the order of the samples: two buffers with
    the same samples in any order have the same checksum. *)
Theorem checksum_int16_reordered (a b : bytes) :
  Nat.even (List.length a) = true -> Nat.even (List.length b) = true ->
  Permutation (samples16 a) (samples16 b) ->
  checksum_int16 a = checksum_int16 b.
Proof.
  intros Ea Eb Hp.
  rewrite (checksum_int16_even a Ea), (checksum_int16_even b Eb).
  unfold checksum16_spec. now rewrite (sum_Z_perm _ _ Hp).
Qed.

Lemma checksum_int16_reordered_witness :
  checksum_int16 [x01; x00; xfe; xff] = checksum_int16 [xfe; xff; x01; x00].
Proof.
  apply (checksum_int16_reordered [x01; x00; xfe; xff] [xfe; xff; x01; x00]).
  - reflexivity.
  - reflexivity.
  - apply perm_swap.
Defined.

Lemma samples16_zeros (n : nat) :
  sum_Z (samples16 (repeat x00 (n * 2))) = 0.
Proof.
  induction n as [|n IH]; [reflexivity|].
  change (S n * 2)%nat with (S (S (n * 2))).
  cbn [repeat samples16].
  change (sum_Z (int16_le x00 x00 :: samples16 (repeat x00 (n * 2))))
    with (int16_le x00 x00 + sum_Z (samples16 (repeat x00 (n * 2)))).
  rewrite IH. reflexivity.
Qed.

(** The silence the capture loop sends as a tail has checksum 0: both
    tail frames carry the metadata [dataLength = current_chunk],
    [checksum = 0]. *)
Theorem silent_frame_meta (c : client) (t : Z) :
  chunk_ok c ->
  checksum_int16 (silent c) = Ok 0
  /\ frame_meta SAMPLE_RATE t (silent c) =
     Ok [ ("sampleRate"%string, PyInt 16000);
          ("dataLength"%string, PyInt (current_chunk c));
          ("checksum"%string, PyInt 0);
          ("timestamp"%string, PyInt t);
          ("server_sent_to_stt"%string, PyBool true) ].
Proof.
  intros Hok. destruct (silent_length c Hok) as (L1 & L2 & L3 & L4).
  assert (Hc : checksum16_spec (silent c) = 0).
  { unfold checksum16_spec, silent.
    assert (Hz : 0 <= current_chunk c).
    { destruct Hok as [Hi Hc]. rewrite Hc.
      destruct (chunk_index c) as [|[|[|i]]]; cbn in *; lia. }
    rewrite Z2Nat.inj_mul by lia.
    change (Z.to_nat 2) with 2%nat. rewrite samples16_zeros. reflexivity. }
  split.
  - rewrite (checksum_int16_even _ L2), Hc. reflexivity.
  - rewrite (frame_meta_even _ _ _ L2), Hc, L4. reflexivity.
Qed.

Lemma silent_frame_meta_witness :
  checksum_int16 (silent (init_client false)) = Ok 0.
Proof.
  apply (silent_frame_meta (init_client false) 0).
  split; [cbn; lia | reflexivity].
Defined.

Lemma frame_ok_even (sample_rate now_ms : Z) (a f : bytes) :
  frame sample_rate now_ms a = Ok f -> Nat.even (List.length a) = true.
Proof.
  intros H. destruct (Nat.even (List.length a)) eqn:E; [reflexivity|].
  unfold frame, frame_meta, checksum_int16 in H.
  rewrite (frombuffer_odd a E) in H. discriminate H.
Qed.

Lemma Ok_inj (A : Type) (x y : A) : Ok x = Ok y -> x = y.
Proof. intros H. now inversion H. Qed.

Lemma decoded_inj (m m' : pydict) (a a' : bytes) :
  Some (m, a) = Some (m', a') -> m = m' /\ a = a'.
Proof. intros H. now inversion H. Qed.

Lemma meta_inj (k1 k4 : string) (sr t sr' t' : Z) (e2 e3 e5 e2' e3' e5' : string * pyval) :
  [(k1, PyInt sr); e2; e3; (k4, PyInt t); e5]
  = [(k1, PyInt sr'); e2'; e3'; (k4, PyInt t'); e5'] ->
  sr = sr' /\ t = t'.
Proof. intros H. now inversion H. Qed.

(** [frame] loses nothing: two calls that return the same frame were given
    the same audio, the same sample rate and the same clock reading. *)
Theorem frame_injective (sr t sr' t' : Z) (a a' f : bytes) :
  int_in_range sr -> int_in_range t -> len a <= PY_SSIZE_T_MAX ->
  int_in_range sr' -> int_in_range t' -> len a' <= PY_SSIZE_T_MAX ->
  frame sr t a = Ok f -> frame sr' t' a' = Ok f ->
  a = a' /\ sr = sr' /\ t = t'.
Proof.
  intros Hs Ht Ha Hs' Ht' Ha' F F'.
  pose proof (frame_ok_even _ _ _ _ F) as E.
  pose proof (frame_ok_even _ _ _ _ F') as E'.
  destruct (frame_even sr t a E Hs Ht Ha) as (p & _ & _ & G & _ & D).
  destruct (frame_even sr' t' a' E' Hs' Ht' Ha') as (p' & _ & _ & G' & _ & D').
  rewrite (Ok_inj _ _ _ (eq_trans (eq_sym G) F)) in D.
  rewrite (Ok_inj _ _ _ (eq_trans (eq_sym G') F')) in D'.
  destruct (decoded_inj _ _ _ _ (eq_trans (eq_sym D) D')) as [M A].
  destruct (meta_inj _ _ _ _ _ _ _ _ _ _ _ _ M) as [M1 M2].
  auto.
Qed.

Lemma frame_injective_witness :
  exists f,
    frame SAMPLE_RATE 5 [x01; x00] = Ok f
    /\ ([x01; x00] = [x01; x00] /\ SAMPLE_RATE = SAMPLE_RATE /\ 5 = 5).
Proof.
  destruct (frame_even SAMPLE_RATE 5 [x01; x00]
              eq_refl eq_refl eq_refl ltac:(discriminate))
    as (prefix & _ & _ & F & _).
  eexists. split; [exact F|].
  apply (frame_injective SAMPLE_RATE 5 SAMPLE_RATE 5 [x01; x00] [x01; x00]
           _ eq_refl eq_refl ltac:(discriminate)
           eq_refl eq_refl ltac:(discriminate) F F).
Defined.

(* ================================================================== *)
(** * Start-up: [env_blocks_global_hotkeys] and [PTTClient.__init__] *)

(** [os.environ.get(name)] used as a condition: a variable that is unset
    or holds the empty string is false. *)
Definition env_set (v : option string) : bool :=
  match v with
  | Some (String _ _) => true
  | _ => false
  end.

(** [platform] is [sys.platform]; the other two are
    [os.environ.get("DISPLAY")] and [os.environ.get("WAYLAND_DISPLAY")]. *)
Definition env_blocks_global_hotkeys (platform : string)
  (DISPLAY WAYLAND_DISPLAY : option string) : bool :=
  if String.prefix "linux" platform then
    if negb (env_set DISPLAY) && negb (env_set WAYLAND_DISPLAY) then true
    else if env_set WAYLAND_DISPLAY then true
    else false
  else false.


(** Global hotkeys are reported blocked exactly on Linux when Wayland is
    in use or no X display is set; a variable set to the empty string
    counts as unset. *)
Theorem env_blocks_global_hotkeys_iff (platform : string)
  (DISPLAY WAYLAND_DISPLAY : option string) :
  env_blocks_global_hotkeys platform DISPLAY WAYLAND_DISPLAY = true
  <-> String.prefix "linux" platform = true
      /\ (env_set WAYLAND_DISPLAY = true \/ env_set DISPLAY = false).
Proof.
  unfold env_blocks_global_hotkeys.
  destruct (String.prefix "linux" platform), (env_set DISPLAY),
    (env_set WAYLAND_DISPLAY); cbn; intuition discriminate.
Qed.



(* ================================================================== *)
(** * The audio stream: [open_stream], [close_stream] *)

(** Opening an open stream does nothing, whatever the device would
    answer; closing is idempotent; a stream that was opened and closed is
    closed, and the client is otherwise as before. *)
Theorem stream_open_close (c : client) (open_ok : bool) :
  (stream c = true -> open_stream open_ok c = Ok (c, []))
  /\ (stream c = false ->
      open_stream false c = Raise OtherError
      /\ open_stream true c
         = Ok (set_stream true c, [OpenStream (current_chunk c)])
      /\ close_stream (set_stream true c) = (c, [CloseStream]))
  /\ stream (fst (close_stream c)) = false
  /\ close_stream (fst (close_stream c)) = (fst (close_stream c), []).
Proof.
  unfold open_stream, close_stream.
  destruct c as [r st i sz pa tm cs sm w cw lp]. cbn.
  destruct sm; cbn; repeat split; intros; try discriminate; reflexivity.
Qed.

(* ================================================================== *)
(** * The control channel: [control_call], [control_stop_and_clear] *)

(** [control_call(payload)]: nothing without a control channel; the
    exception of a failed send is swallowed.  The result is what went out;
    [send_ok] is the fate of [self.control_ws.send]. *)
Definition control_call (c : client) (send_ok : bool) (method : string)
  : list string :=
  if control_ws c then (if send_ok then [method] else []) else [].

(** [control_stop_and_clear] with the fates of its two sends. *)
Definition control_stop_and_clear_sends (c : client) (ok1 ok2 : bool)
  : list string :=
  control_call c ok1 "stop" ++ control_call c ok2 "clear_audio_queue".

(** Finalize-now sends nothing without a control channel; with one it
    sends [stop] before [clear_audio_queue], and the failure of one send
    does not keep the other from going out. *)
Theorem control_stop_and_clear_best_effort (c : client) (ok1 ok2 : bool) :
  (control_ws c = false -> control_stop_and_clear_sends c ok1 ok2 = [])
  /\ (control_ws c = true ->
      control_stop_and_clear_sends c ok1 ok2
      = (if ok1 then ["stop"%string] else [])
        ++ (if ok2 then ["clear_audio_queue"%string] else []))
  /\ control_stop_and_clear_sends c true true = control_stop_and_clear c.
Proof.
  unfold control_stop_and_clear_sends, control_call, control_stop_and_clear.
  destruct (control_ws c); repeat split; intros; try discriminate;
    reflexivity.
Qed.

(* ================================================================== *)
(** * Further properties of the receiver *)

Lemma receiver_classify_continue (c c1 : client) (data : json)
  (ev : list event) :
  receiver_classify c data = Ok (c1, true, ev) -> c1 = c.
Proof.
  unfold receiver_classify, bind, py_get. intros H.
  destruct data; try discriminate H.
  repeat match type of H with
         | context [match ?x with _ => _ end] => destruct x
         | context [if ?b then _ else _] => destruct b
         end;
    inversion H; reflexivity.
Qed.

Lemma receiver_classify_stop (c c1 : client) (data : json)
  (ev : list event) :
  receiver_classify c data = Ok (c1, false, ev) -> c1 = set_running false c.
Proof.
  unfold receiver_classify, bind, py_get. intros H.
  destruct data; try discriminate H.
  repeat match type of H with
         | context [match ?x with _ => _ end] => destruct x
         | context [if ?b then _ else _] => destruct b
         end;
    inversion H; reflexivity.
Qed.

Lemma receiver_step_shape (loads : string -> option json)
  (c : client) (m : inbound) :
  let '(c1, continue, ev) := receiver_step loads c m in
  (continue = true -> c1 = c)
  /\ (c1 = c \/ c1 = set_running false c)
  /\ (running c1 = false -> running c = true -> continue = false).
Proof.
  unfold receiver_step. destruct m as [msg| | |]; cbn;
    try (repeat split; auto; intros; discriminate).
  destruct (loads msg) as [data|]; [|cbn; repeat split; auto; congruence].
  destruct (receiver_classify c data) as [[[c1 [|]] ev]|e] eqn:E.
  - pose proof (receiver_classify_continue _ _ _ _ E). subst c1.
    repeat split; auto. congruence.
  - pose proof (receiver_classify_stop _ _ _ _ E). subst c1.
    repeat split; auto; intros; discriminate.
  - cbn. repeat split; auto; intros; discriminate.
Qed.

Definition is_print (e : event) : bool :=
  match e with Print _ => true | _ => false end.

Lemma receiver_step_prints (loads : string -> option json)
  (c : client) (m : inbound) :
  forallb is_print (snd (receiver_step loads c m)) = true.
Proof.
  unfold receiver_step. destruct m as [msg| | |]; cbn; auto.
  destruct (loads msg) as [data|]; [|reflexivity].
  destruct (receiver_classify c data) as [[[c1 k] ev]|e] eqn:E;
    [|reflexivity].
  cbn. unfold receiver_classify, bind, py_get in E.
  destruct data; try discriminate E.
  repeat match type of E with
         | context [match ?x with _ => _ end] => destruct x
         | context [if ?b then _ else _] => destruct b
         end;
    inversion E; reflexivity.
Qed.

(** Whatever arrives, the receiver only prints, and the one thing it ever
    changes in the client is [running], which it can clear but not set. *)
Theorem receiver_only_clears_running (loads : string -> option json)
  (inbox : list inbound) :
  forall c : client,
  (fst (receiver loads c inbox) = c
   \/ fst (receiver loads c inbox) = set_running false c)
  /\ forallb is_print (snd (receiver loads c inbox)) = true.
Proof.
  induction inbox as [|m inbox IH]; intros c; [cbn; auto|].
  cbn [receiver].
  pose proof (receiver_step_shape loads c m) as Hs.
  pose proof (receiver_step_prints loads c m) as Hp.
  destruct (receiver_step loads c m) as [[c1 k] ev1]. cbn [snd] in Hp.
  destruct Hs as (S1 & S2 & _).
  destruct k.
  - rewrite (S1 eq_refl). destruct (IH c) as [I1 I2].
    destruct (receiver loads c inbox) as [c2 ev2]. cbn [fst snd] in *.
    split; [exact I1|]. rewrite forallb_app, Hp, I2. reflexivity.
  - cbn [fst snd]. auto.
Qed.

(** Once the receiver has cleared [running] it has stopped: what arrives
    afterwards is neither read nor printed. *)
Theorem receiver_deaf_after_stop (loads : string -> option json)
  (inbox later : list inbound) :
  forall c : client,
  running c = true ->
  running (fst (receiver loads c inbox)) = false ->
  receiver loads c (inbox ++ later) = receiver loads c inbox.
Proof.
  induction inbox as [|m inbox IH]; intros c Hr Hf.
  - cbn in Hf. congruence.
  - cbn [app receiver] in *.
    pose proof (receiver_step_shape loads c m) as Hs.
    destruct (receiver_step loads c m) as [[c1 k] ev1].
    destruct Hs as (S1 & _ & _).
    destruct k; [|reflexivity].
    rewrite (S1 eq_refl) in *.
    destruct (receiver loads c inbox) as [c2 ev2] eqn:E. cbn [fst] in Hf.
    rewrite IH; [now rewrite E | exact Hr | now rewrite E].
Qed.

Lemma receiver_deaf_after_stop_witness :
  receiver loads_rejection (set_running true (init_client false))
    ([Message rejection_text] ++ [Message rejection_text; ClosedError])
  = receiver loads_rejection (set_running true (init_client false))
      [Message rejection_text].
Proof.
  apply (receiver_deaf_after_stop loads_rejection); reflexivity.
Defined.

(** A message that is JSON but not an object (a list, a string, a number,
    [true], [null]) ends the receiver as an error and clears [running]. *)
Theorem receiver_non_object_stops (loads : string -> option json)
  (c : client) (msg : string) (data : json) :
  loads msg = Some data ->
  (forall members, data <> JObj members) ->
  receiver_step loads c (Message msg)
  = (set_running false c, false, [Print LogReceiverError]).
Proof.
  intros Hl Hn. unfold receiver_step. rewrite Hl.
  destruct data; try reflexivity. exfalso. exact (Hn members eq_refl).
Qed.

Lemma receiver_non_object_stops_witness :
  receiver_step (fun _ => Some (JArr [JNum "1"])) (init_client false)
    (Message "[1]")
  = (set_running false (init_client false), false, [Print LogReceiverError]).
Proof.
  apply (receiver_non_object_stops (fun _ => Some (JArr [JNum "1"]))
           (init_client false) "[1]" (JArr [JNum "1"]) eq_refl).
  intros members H. discriminate H.
Defined.

(** A message whose type is one of the nine progress kinds is dropped
    without a trace, whatever else it holds. *)
Theorem receiver_suppresses_progress (loads : string -> option json)
  (c : client) (msg ty : string) (members : list (string * json)) :
  loads msg = Some (JObj members) ->
  members_get members "type" = Some (JStr ty) ->
  In ty SUPPRESSED_TYPES ->
  receiver_step loads c (Message msg) = (c, true, []).
Proof.
  intros Hl Ht Hin. unfold receiver_step, receiver_classify, bind, py_get.
  rewrite Hl, Ht.
  destruct (members_get members "error") as [err|];
    repeat (destruct Hin as [<- | Hin]; [reflexivity|]); destruct Hin.
Qed.

Lemma receiver_suppresses_progress_witness :
  receiver_step
    (fun _ => Some (JObj [("type"%string, JStr "realtime");
                          ("text"%string, JStr "hel")]))
    (init_client false) (Message "m")
  = (init_client false, true, []).
Proof.
  apply (receiver_suppresses_progress _ (init_client false) "m" "realtime"
           [("type"%string, JStr "realtime"); ("text"%string, JStr "hel")]
           eq_refl eq_refl).
  left. reflexivity.
Defined.

(* ================================================================== *)
(** * Further properties of the capture loop and of the key handlers *)

Lemma close_stream_more (c : client) :
  chunks_sent (fst (close_stream c)) = chunks_sent c
  /\ stop_threads (fst (close_stream c)) = stop_threads c
  /\ stream (fst (close_stream c)) = false
  /\ ws (fst (close_stream c)) = ws c
  /\ control_ws (fst (close_stream c)) = control_ws c
  /\ loop (fst (close_stream c)) = loop c
  /\ toggle_mode (fst (close_stream c)) = toggle_mode c
  /\ forallb is_print (snd (close_stream c)) = negb (stream c).
Proof.
  unfold close_stream. destruct (stream c) eqn:E; cbn; auto 10.
Qed.

Lemma submitted_tail_frames (c : client) (t1 t2 : Z) :
  0 <= len (submitted (tail_frames c t1 t2)).
Proof. unfold len. lia. Qed.

(** The counter [chunks_sent] never goes down, and it grows by at most the
    number of frames submitted: it counts captured buffers, one by one,
    and leaves the silent tail frames out. *)
Lemma step_chunks_sent (loads : string -> option json) (s : sys) (a : action) :
  chunks_sent (cl s) <= chunks_sent (cl (fst (step loads s a)))
  <= chunks_sent (cl s) + len (submitted (snd (step loads s a))).
Proof.
  assert (Hlen : forall l : list bytes, 0 <= len l) by (intros; unfold len; lia).
  destruct s as [c was pc ra sa]. destruct a as [k|k|ch|t1 t2 ok|r t|m|];
    cbn [step cl was_active worker receiver_alive stdin_alive].
  - destruct (toggle_mode c); [cbn; lia|].
    unfold on_press. destruct k as [|ch|];
      repeat (break_if; cbn); unfold len; cbn; lia.
  - destruct (toggle_mode c); [cbn; lia|].
    unfold on_release. destruct k as [|ch|];
      repeat (break_if; cbn); unfold len; cbn; lia.
  - unfold toggle_stdin. repeat (break_if; cbn); unfold len; cbn; lia.
  - destruct pc; cbn; try lia.
    unfold worker_top.
    destruct (stop_threads c || negb (running c)); [cbn; lia|].
    destruct (negb (ptt_active c)).
    + destruct was; [|cbn; lia].
      pose proof (close_stream_more c) as (C1 & _).
      destruct (close_stream c) as [c1 closed]. cbn [fst snd cl] in *.
      rewrite C1. specialize (Hlen (submitted
        (tail_frames c t1 t2 ++ (if loop c then [StopAndClear] else [])
         ++ closed))). lia.
    + destruct (negb was); [|cbn; lia].
      unfold open_stream. destruct (stream c); [cbn; lia|].
      destruct ok; cbn; unfold len; cbn; lia.
  - destruct pc; cbn; try lia.
    unfold worker_read. destruct r as [audio|]; [|cbn; lia].
    destruct (frame SAMPLE_RATE t audio); [|cbn; lia].
    destruct (ws c && running c); [|cbn; lia].
    destruct (loop c); cbn; unfold len; cbn; lia.
  - destruct ra; [|cbn; lia].
    pose proof (receiver_step_shape loads c m) as Hs.
    pose proof (receiver_step_fields loads c m) as Hf.
    destruct (receiver_step loads c m) as [[c1 k] ev].
    cbn [fst snd cl].
    destruct Hf as (_ & _ & _ & Hsub & _). rewrite Hsub.
    destruct Hs as (_ & [-> | ->] & _); cbn; lia.
  - cbn. lia.
Qed.

Theorem chunks_sent_counts_captures (loads : string -> option json)
  (acts : list action) :
  forall s : sys,
  chunks_sent (cl s) <= chunks_sent (cl (fst (exec loads s acts)))
  <= chunks_sent (cl s) + len (submitted (snd (exec loads s acts))).
Proof.
  induction acts as [|a acts IH]; intros s; cbn [exec].
  - cbn. lia.
  - pose proof (step_chunks_sent loads s a) as Hs.
    destruct (step loads s a) as [s1 e1]. cbn [fst snd] in Hs.
    specialize (IH s1). destruct (exec loads s1 acts) as [s2 e2].
    cbn [fst snd] in *. rewrite submitted_app. unfold len in *.
    rewrite length_app, Nat2Z.inj_add. lia.
Qed.

(** During a capture every buffer [frame] accepts adds one to
    [chunks_sent]. *)
Theorem chunks_sent_during_capture (loads : string -> option json)
  (reads : list (Z * bytes)) :
  forall s : sys, capturing s ->
  chunks_sent (cl (fst (exec loads s (capture_actions reads))))
  = chunks_sent (cl s) + len (frames_of reads).
Proof.
  induction reads as [|[t audio] reads IH]; intros s Hcap.
  - cbn. lia.
  - destruct Hcap as (Hpc & Hwas & Hr & Hst & Hp & Hw & Hl).
    destruct s as [c was pc ra sa]. cbn [cl was_active worker] in *.
    subst pc was.
    cbn [capture_actions exec]. cbn [step worker cl was_active].
    unfold worker_top. rewrite Hr, Hst, Hp. cbn [orb negb].
    cbn [step worker cl was_active receiver_alive stdin_alive].
    unfold worker_read, frames_of. cbn [flat_map fst snd].
    fold (frames_of reads).
    destruct (frame SAMPLE_RATE t audio) as [f|e].
    + rewrite Hw, Hr, Hl. cbn [andb].
      match goal with
      | |- context [exec loads ?s1 (capture_actions reads)] =>
          pose proof (IH s1) as I1;
          destruct (exec loads s1 (capture_actions reads)) as [s2 ev2]
      end.
      cbn [fst snd cl] in *. rewrite I1 by (repeat split; assumption).
      cbn [chunks_sent set_chunks_sent app]. unfold len. cbn [List.length].
      lia.
    + match goal with
      | |- context [exec loads ?s1 (capture_actions reads)] =>
          pose proof (IH s1) as I1;
          destruct (exec loads s1 (capture_actions reads)) as [s2 ev2]
      end.
      cbn [fst snd cl] in *. rewrite I1 by (repeat split; assumption).
      cbn [app]. lia.
Qed.

Lemma chunks_sent_during_capture_witness :
  chunks_sent
    (cl (fst (exec loads_rejection holding_space
                (capture_actions [(5, [x01; x00]); (6, [x01])]))))
  = chunks_sent (cl holding_space)
    + len (frames_of [(5, [x01; x00]); (6, [x01])]).
Proof.
  apply (chunks_sent_during_capture loads_rejection
           [(5, [x01; x00]); (6, [x01])] holding_space).
  repeat split; reflexivity.
Defined.

(** A read that raises, or that returns an odd number of bytes, costs
    that buffer only: an error line is printed, the client is as it was
    and the capture loop is back at its [while] test. *)
Theorem capture_errors_are_not_fatal (loads : string -> option json)
  (s : sys) (r : read_outcome) (t : Z) :
  worker s = InRead ->
  r = ReadRaises
  \/ (exists audio, r = ReadOk audio
                    /\ Nat.even (List.length audio) = false) ->
  step loads s (WorkerRead r t)
  = (mkSys (cl s) (was_active s) AtLoopTop (receiver_alive s) (stdin_alive s),
     [Print LogAudioSendError]).
Proof.
  intros Hpc Hr. cbn [step]. rewrite Hpc. unfold worker_read.
  destruct Hr as [-> | (audio & -> & Ho)]; [reflexivity|].
  unfold frame, frame_meta, checksum_int16.
  rewrite (frombuffer_odd audio Ho). reflexivity.
Qed.

Lemma capture_errors_are_not_fatal_witness :
  step loads_rejection
    (mkSys (cl holding_space) true InRead true true)
    (WorkerRead (ReadOk [x01; x02; x03]) 7)
  = (mkSys (cl holding_space) true AtLoopTop true true,
     [Print LogAudioSendError]).
Proof.
  apply (capture_errors_are_not_fatal loads_rejection
           (mkSys (cl holding_space) true InRead true true)
           (ReadOk [x01; x02; x03]) 7 eq_refl).
  right. exists [x01; x02; x03]. split; reflexivity.
Defined.

(** When the microphone cannot be opened the capture loop prints the
    error, clears [running] and leaves; the session then returns at its
    next poll without a frame submitted. *)
Theorem mic_failure_ends_session (loads : string -> option json)
  (s : sys) (t1 t2 : Z) :
  worker s = AtLoopTop -> was_active s = false ->
  running (cl s) = true -> stop_threads (cl s) = false ->
  ptt_active (cl s) = true -> stream (cl s) = false ->
  step loads s (WorkerTop t1 t2 false)
  = (mkSys (set_running false (cl s)) false WorkerDone
       (receiver_alive s) (stdin_alive s),
     [Print LogMicError])
  /\ forall acts, In MainPoll acts ->
       exists s1 ev,
         wait_loop loads (fst (step loads s (WorkerTop t1 t2 false))) acts
         = (s1, ev, Returned)
         /\ submitted ev = [].
Proof.
  intros Hpc Hwas Hr Hst Hp Hsm.
  assert (Hstep : step loads s (WorkerTop t1 t2 false)
                  = (mkSys (set_running false (cl s)) false WorkerDone
                       (receiver_alive s) (stdin_alive s),
                     [Print LogMicError])).
  { cbn [step]. rewrite Hpc, Hwas. unfold worker_top, open_stream.
    rewrite Hr, Hst, Hp, Hsm. reflexivity. }
  split; [exact Hstep|].
  intros acts Hin. rewrite Hstep. cbn [fst].
  destruct (wait_loop_returns loads
              (mkSys (set_running false (cl s)) false WorkerDone
                 (receiver_alive s) (stdin_alive s)) acts eq_refl Hin)
    as (s1 & ev & E & _ & S).
  eauto.
Qed.

Lemma mic_failure_ends_session_witness :
  step loads_rejection
    (fst (step loads_rejection
            (session_start (init_client false) true (mkSchedule true false []))
            (KeyPress KeySpace)))
    (WorkerTop 0 0 false)
  = (mkSys
       (set_running false
          (cl (fst (step loads_rejection
                      (session_start (init_client false) true
                         (mkSchedule true false []))
                      (KeyPress KeySpace)))))
       false WorkerDone true true,
     [Print LogMicError]).
Proof.
  apply (mic_failure_ends_session loads_rejection
           (fst (step loads_rejection
                   (session_start (init_client false) true
                      (mkSchedule true false []))
                   (KeyPress KeySpace)))
           0 0 eq_refl eq_refl eq_refl eq_refl eq_refl eq_refl).
Defined.

(** The actions of the threads that are not keyboard input. *)
Definition no_keys (acts : list action) : bool :=
  forallb (fun a => match a with
                    | KeyPress _ | KeyRelease _ | StdinChar _ => false
                    | _ => true
                    end) acts.

Lemma idle_step (loads : string -> option json) (s : sys) (a : action) :
  ptt_active (cl s) = false -> was_active s = false -> worker s <> InRead ->
  no_keys [a] = true ->
  ptt_active (cl (fst (step loads s a))) = false
  /\ was_active (fst (step loads s a)) = false
  /\ worker (fst (step loads s a)) <> InRead
  /\ stream (cl (fst (step loads s a))) = stream (cl s)
  /\ forallb is_print (snd (step loads s a)) = true.
Proof.
  intros Hp Hwas Hpc Hk.
  destruct s as [c was pc ra sa]. cbn [cl was_active worker] in *. subst was.
  destruct a as [k|k|ch|t1 t2 ok|r t|m|]; try discriminate Hk;
    cbn [step cl was_active worker receiver_alive stdin_alive].
  - destruct pc; cbn; auto; try (now contradict Hpc).
    unfold worker_top. rewrite Hp.
    destruct (stop_threads c || negb (running c)); cbn;
      repeat split; auto; discriminate.
  - destruct pc; cbn; auto. now contradict Hpc.
  - destruct ra; [|cbn; auto].
    pose proof (receiver_step_shape loads c m) as Hs.
    pose proof (receiver_step_prints loads c m) as Hpr.
    destruct (receiver_step loads c m) as [[c1 k] ev].
    cbn [fst snd cl was_active worker] in *.
    destruct Hs as (_ & [-> | ->] & _); cbn; auto.
  - cbn. auto.
Qed.

(** As long as push-to-talk has not been switched on, the capture loop
    does not open the microphone and nothing is sent: whatever the other
    threads do, the client only prints what the receiver reports. *)
Theorem idle_client_sends_nothing (loads : string -> option json)
  (acts : list action) :
  forall s : sys,
  ptt_active (cl s) = false -> was_active s = false -> worker s <> InRead ->
  no_keys acts = true ->
  forallb is_print (snd (exec loads s acts)) = true
  /\ stream (cl (fst (exec loads s acts))) = stream (cl s)
  /\ ptt_active (cl (fst (exec loads s acts))) = false.
Proof.
  induction acts as [|a acts IH]; intros s Hp Hwas Hpc Hk; cbn [exec].
  - cbn. auto.
  - cbn [no_keys forallb] in Hk. apply andb_prop in Hk as [Ha Hk].
    assert (Ha' : no_keys [a] = true) by (cbn; now rewrite Ha).
    destruct (idle_step loads s a Hp Hwas Hpc Ha') as (I1 & I2 & I3 & I4 & I5).
    destruct (step loads s a) as [s1 e1]. cbn [fst snd] in *.
    destruct (IH s1 I1 I2 I3 Hk) as (J1 & J2 & J3).
    destruct (exec loads s1 acts) as [s2 e2]. cbn [fst snd] in *.
    rewrite forallb_app, I5, J1, J2, I4. auto.
Qed.

Lemma idle_client_sends_nothing_witness :
  forallb is_print
    (snd (exec loads_rejection
            (session_start (init_client false) true (mkSchedule true false []))
            [WorkerTop 0 0 true; Recv (Message rejection_text);
             WorkerTop 0 0 true])) = true.
Proof.
  apply (idle_client_sends_nothing loads_rejection
           [WorkerTop 0 0 true; Recv (Message rejection_text);
            WorkerTop 0 0 true]
           (session_start (init_client false) true
              (mkSchedule true false [])));
    reflexivity || discriminate.
Defined.

(** The space key repeating while held down changes nothing after the
    first press, and a release that finds the client inactive asks for no
    finalize-now. *)
Theorem hotkey_repeat_and_stray_release (c : client) :
  on_press (fst (on_press c KeySpace)) KeySpace
  = (fst (on_press c KeySpace), [])
  /\ ptt_active (fst (on_press c KeySpace)) = true
  /\ (ptt_active c = false -> forall k, on_release c k = (c, [])).
Proof.
  unfold on_press, on_release.
  destruct c as [r st i sz pa tm cs sm w cw lp]. cbn.
  destruct pa; cbn; repeat split; auto; try discriminate.
  intros _ [|ch|]; reflexivity.
Qed.

(** Hotkey modality with the capture loop at work between press and
    release: the deactivation is asked to be finalized twice, once by the
    release handler and once by the capture loop after its tail. *)
Theorem hotkey_deactivation_finalizes_twice (loads : string -> option json)
  (s : sys) (t0 t0' t t1 t2 : Z) (ok : bool) (r : read_outcome) :
  toggle_mode (cl s) = false -> running (cl s) = true ->
  stop_threads (cl s) = false -> loop (cl s) = true ->
  ptt_active (cl s) = false -> was_active s = false ->
  worker s = AtLoopTop ->
  count_finalize
    (snd (exec loads s
            [KeyPress KeySpace; WorkerTop t0 t0' true; WorkerRead r t;
             KeyRelease KeySpace; WorkerTop t1 t2 ok])) = 2%nat.
Proof.
  intros Htm Hrun Hstop Hloop Hp Hwas Hpc.
  destruct s as [c was pc ra sa]. cbn [cl was_active worker] in *.
  subst was pc.
  destruct c as [rn st i sz pa tm cs sm w cw lp].
  cbn in Htm, Hrun, Hstop, Hloop, Hp. subst tm rn st lp pa.
  set (c3 := mkClient true false i sz true false cs true w cw true).
  assert (H2 : exists ev2,
    exec loads
      (mkSys (mkClient true false i sz false false cs sm w cw true)
         false AtLoopTop ra sa)
      [KeyPress KeySpace; WorkerTop t0 t0' true]
    = (mkSys c3 true InRead ra sa, ev2)
    /\ count_finalize ev2 = 0%nat).
  { destruct sm; eexists; split; reflexivity. }
  destruct H2 as (ev2 & H2 & F2).
  change [KeyPress KeySpace; WorkerTop t0 t0' true; WorkerRead r t;
          KeyRelease KeySpace; WorkerTop t1 t2 ok]
    with ([KeyPress KeySpace; WorkerTop t0 t0' true]
          ++ [WorkerRead r t; KeyRelease KeySpace; WorkerTop t1 t2 ok]).
  rewrite exec_app, H2.
  cbn [exec step worker cl was_active receiver_alive stdin_alive].
  pose proof (count_finalize_read c3 r t)
    as (R0 & R1 & R2 & R3 & R4 & R5 & R6).
  cbn in R1, R2, R3, R4, R5, R6.
  destruct (worker_read c3 r t) as [c4 ev4]. cbn [fst snd] in *.
  cbn [cl was_active worker receiver_alive stdin_alive].
  rewrite R6. unfold on_release. rewrite R3, R4.
  cbn [with_cl cl was_active worker receiver_alive stdin_alive step].
  rewrite (worker_top_deactivated (set_ptt_active false c4) t1 t2 ok);
    [|exact R1 | exact R2 | reflexivity].
  cbn [loop set_ptt_active]. rewrite R4.
  match goal with
  | |- context [close_stream ?x] =>
      pose proof (count_finalize_close x) as Hc;
      destruct (close_stream x) as [c5 closed]
  end.
  cbn [fst snd] in *.
  rewrite !count_finalize_app, F2, R0, count_finalize_tail.
  rewrite ?count_finalize_app, Hc. reflexivity.
Qed.

Lemma hotkey_deactivation_finalizes_twice_witness :
  count_finalize
    (snd (exec loads_rejection
            (session_start (init_client false) true (mkSchedule true false []))
            [KeyPress KeySpace; WorkerTop 0 0 true; WorkerRead ReadRaises 0;
             KeyRelease KeySpace; WorkerTop 1 2 true])) = 2%nat.
Proof.
  apply (hotkey_deactivation_finalizes_twice loads_rejection
           (session_start (init_client false) true (mkSchedule true false []))
           0 0 0 1 2 true ReadRaises); reflexivity.
Defined.

(* ================================================================== *)
(** * Further properties of sessions and of [run] *)

Lemma step_more (loads : string -> option json) (s : sys) (a : action) :
  (stdin_alive s = false -> stdin_alive (fst (step loads s a)) = false)
  /\ loop (cl (fst (step loads s a))) = loop (cl s)
  /\ ws (cl (fst (step loads s a))) = ws (cl s)
  /\ control_ws (cl (fst (step loads s a))) = control_ws (cl s)
  /\ toggle_mode (cl (fst (step loads s a))) = toggle_mode (cl s).
Proof.
  destruct s as [c was pc ra sa]. destruct a as [k|k|ch|t1 t2 ok|r t|m|];
    cbn [step cl was_active worker receiver_alive stdin_alive].
  - destruct (toggle_mode c) eqn:E; [cbn; auto|].
    unfold on_press. destruct k as [|ch|];
      repeat (break_if; cbn); auto.
  - destruct (toggle_mode c) eqn:E; [cbn; auto|].
    unfold on_release. destruct k as [|ch|];
      repeat (break_if; cbn); auto.
  - destruct sa.
    + unfold toggle_stdin. repeat (break_if; cbn); repeat split; auto;
        discriminate.
    + rewrite andb_false_r. cbn. auto.
  - destruct pc; cbn; auto.
    unfold worker_top.
    destruct (stop_threads c || negb (running c)); [cbn; auto|].
    destruct (negb (ptt_active c)).
    + destruct was; [|cbn; auto].
      pose proof (close_stream_more c) as (_ & _ & _ & C4 & C5 & C6 & C7 & _).
      destruct (close_stream c) as [c1 closed]. cbn [fst snd cl] in *. auto.
    + destruct (negb was); [|cbn; auto].
      unfold open_stream. destruct (stream c); [cbn; auto|].
      destruct ok; cbn; auto.
  - destruct pc; cbn; auto.
    unfold worker_read. destruct r as [audio|]; [|cbn; auto].
    destruct (frame SAMPLE_RATE t audio); [|cbn; auto].
    destruct (ws c && running c); [|cbn; auto].
    destruct (loop c) eqn:E; cbn; auto.
  - destruct ra; [|cbn; auto].
    pose proof (receiver_step_shape loads c m) as Hs.
    destruct (receiver_step loads c m) as [[c1 k] ev].
    cbn [fst snd cl stdin_alive].
    destruct Hs as (_ & [-> | ->] & _); cbn; auto.
  - cbn. auto.
Qed.

Lemma wait_loop_more (loads : string -> option json) (acts : list action) :
  forall s : sys,
  let s1 := fst (fst (wait_loop loads s acts)) in
  (stdin_alive s = false -> stdin_alive s1 = false)
  /\ loop (cl s1) = loop (cl s)
  /\ ws (cl s1) = ws (cl s)
  /\ control_ws (cl s1) = control_ws (cl s)
  /\ toggle_mode (cl s1) = toggle_mode (cl s).
Proof.
  induction acts as [|a acts IH]; intros s; [cbn; auto|].
  assert (Hgen :
    let s1 := fst (fst (let (s1, ev1) := step loads s a in
                        let '(s2, ev2, out) := wait_loop loads s1 acts in
                        (s2, ev1 ++ ev2, out))) in
    (stdin_alive s = false -> stdin_alive s1 = false)
    /\ loop (cl s1) = loop (cl s)
    /\ ws (cl s1) = ws (cl s)
    /\ control_ws (cl s1) = control_ws (cl s)
    /\ toggle_mode (cl s1) = toggle_mode (cl s)).
  { pose proof (step_more loads s a) as (A1 & A2 & A3 & A4 & A5).
    destruct (step loads s a) as [s1 e1]. cbn [fst] in *.
    specialize (IH s1). cbn zeta in IH.
    destruct (wait_loop loads s1 acts) as [[s2 e2] out]. cbn [fst] in *.
    destruct IH as (B1 & B2 & B3 & B4 & B5).
    repeat split; auto; congruence. }
  destruct a; try exact Hgen.
  cbn [wait_loop]. destruct (running (cl s)); [apply IH | cbn; auto].
Qed.

(** Whatever happens in a session and however it ends, [one_session]
    leaves the data channel unset; when the connection had been made it has
    also dropped the control channel and closed the audio stream. *)
Theorem session_releases_channels (loads : string -> option json)
  (c : client) (alive : bool) (sch : schedule) :
  let c1 := fst (fst (fst (one_session loads c alive sch))) in
  ws c1 = false /\ loop c1 = true
  /\ (connect_ok sch = true -> control_ws c1 = false /\ stream c1 = false).
Proof.
  unfold one_session. destruct (connect_ok sch); [|cbn; repeat split; auto;
    discriminate].
  pose proof (wait_loop_more loads (actions sch) (session_start c alive sch))
    as Hw. cbn zeta in Hw.
  destruct (wait_loop loads (session_start c alive sch) (actions sch))
    as [[s ev] out]. cbn [fst] in Hw. destruct Hw as (_ & L & _).
  unfold session_cleanup.
  pose proof (close_stream_more (set_ws false (set_control_ws false (cl s))))
    as (_ & _ & C3 & C4 & C5 & C6 & _).
  destruct (close_stream (set_ws false (set_control_ws false (cl s))))
    as [c2 closed]. cbn [fst] in *.
  rewrite C3, C4, C5, C6. cbn. rewrite L. cbn. auto.
Qed.

(** Within a session the chunk size does not change, whatever the
    threads do; only [run], between two sessions, changes it. *)
Theorem session_keeps_chunk_size (loads : string -> option json)
  (c : client) (alive : bool) (sch : schedule) (s : sys)
  (acts : list action) :
  current_chunk (cl (fst (exec loads s acts))) = current_chunk (cl s)
  /\ chunk_index (cl (fst (exec loads s acts))) = chunk_index (cl s)
  /\ current_chunk (fst (fst (fst (one_session loads c alive sch))))
     = current_chunk c
  /\ chunk_index (fst (fst (fst (one_session loads c alive sch))))
     = chunk_index c.
Proof.
  pose proof (exec_fields loads s acts) as He.
  destruct (exec loads s acts) as [s1 ev]. cbn [fst].
  destruct He as (_ & _ & E3 & E4 & _).
  pose proof (one_session_fields loads c alive sch) as Ho.
  destruct (one_session loads c alive sch) as [[[c1 a1] ev1] out].
  cbn [fst]. destruct Ho as (O1 & O2 & _). auto.
Qed.

Lemma is_q_not_space (ch : ascii) : is_q ch = true -> Ascii.eqb ch " " = false.
Proof.
  unfold is_q. intros H. apply orb_prop in H as [H | H];
    apply Ascii.eqb_eq in H; subst ch; reflexivity.
Qed.

Lemma dead_stdin_ignores (loads : string -> option json) (s : sys)
  (chars : list ascii) :
  stdin_alive s = false -> exec loads s (map StdinChar chars) = (s, []).
Proof.
  intros H. induction chars as [|x chars IH]; [reflexivity|].
  cbn [map exec step]. rewrite H, andb_false_r. cbn [andb].
  rewrite IH. reflexivity.
Qed.

(** Toggle modality: [q] clears [running] and ends the keyboard thread.
    From then on no key has any effect, in this session or in any later
    one: the client can no longer be toggled from the keyboard. *)
Theorem toggle_quit_ends_keyboard (loads : string -> option json)
  (s : sys) (ch : ascii) :
  toggle_mode (cl s) = true -> stdin_alive s = true ->
  stop_threads (cl s) = false -> is_q ch = true ->
  let s1 := fst (step loads s (StdinChar ch)) in
  running (cl s1) = false
  /\ stdin_alive s1 = false
  /\ snd (step loads s (StdinChar ch)) = []
  /\ (forall chars, exec loads s1 (map StdinChar chars) = (s1, []))
  /\ (forall c sch,
        snd (fst (fst (one_session loads c (stdin_alive s1) sch))) = false).
Proof.
  intros Htm Hsa Hst Hq.
  assert (Hstep : step loads s (StdinChar ch)
                  = (mkSys (set_running false (cl s)) (was_active s)
                       (worker s) (receiver_alive s) false, [])).
  { cbn [step]. rewrite Htm, Hsa, Hst. cbn [andb negb].
    unfold toggle_stdin. rewrite (is_q_not_space ch Hq), Hq. reflexivity. }
  rewrite Hstep. cbn [fst snd cl stdin_alive].
  split; [reflexivity|]. split; [reflexivity|]. split; [reflexivity|].
  split.
  - intros chars. apply dead_stdin_ignores. reflexivity.
  - intros c sch. unfold one_session.
    destruct (connect_ok sch); [|reflexivity].
    pose proof (wait_loop_more loads (actions sch)
                  (session_start c false sch)) as Hw.
    cbn zeta in Hw.
    destruct (wait_loop loads (session_start c false sch) (actions sch))
      as [[s2 ev] out]. cbn [fst] in Hw. destruct Hw as (D & _).
    destruct (session_cleanup (cl s2)) as [c2 closed]. cbn [fst snd].
    apply D. reflexivity.
Qed.

Lemma toggle_quit_ends_keyboard_witness :
  exec loads_rejection
    (fst (step loads_rejection
            (session_start (init_client true) true (mkSchedule true false []))
            (StdinChar "q")))
    (map StdinChar [space; space])
  = (fst (step loads_rejection
            (session_start (init_client true) true (mkSchedule true false []))
            (StdinChar "q")), []).
Proof.
  apply (toggle_quit_ends_keyboard loads_rejection
           (session_start (init_client true) true (mkSchedule true false []))
           "q" eq_refl eq_refl eq_refl eq_refl).
Defined.

(** Hotkey modality: [q] ends the session it is pressed in, not the
    client: [run] takes the session for a failed one, reduces the chunk
    size, sleeps one second and starts the next session. *)
Theorem quit_key_restarts_session (loads : string -> option json)
  (plan : nat -> schedule) (ch : ascii) (rest : list action) :
  is_q ch = true ->
  connect_ok (plan 0%nat) = true ->
  actions (plan 0%nat) = KeyPress (KeyChar ch) :: MainPoll :: rest ->
  exists c ev later,
    run loads (S (S max_retries)) false plan = Some (c, ev)
    /\ ev = [Print (LogUsingChunk 4096); Print (LogReducingChunk 2048);
             Print (LogReconnecting 1 1); Sleep 1;
             Print (LogUsingChunk 2048)] ++ later.
Proof.
  intros Hq Hconn Hacts.
  set (c1 := mkClient false false 0 4096 false false 0 false false false true).
  assert (Hs : one_session loads (init_client false) true (plan 0%nat)
               = (c1, true, [], Returned)).
  { unfold one_session. rewrite Hconn, Hacts.
    cbn [wait_loop step session_start cl toggle_mode set_running
         set_control_ws set_ws set_loop init_client].
    unfold on_press. rewrite Hq. reflexivity. }
  unfold run.
  pose proof (run_loop_returned loads (S max_retries) plan
                (init_client false) true 0%nat c1 true []
                ltac:(unfold max_retries; lia) Hs) as Hrun.
  destruct (run_loop_total loads plan (S max_retries)
              (fst (reduce_chunk c1)) true 1%nat
              ltac:(unfold max_retries; lia) ltac:(unfold max_retries; lia))
    as (c3 & ev3 & E3).
  rewrite E3 in Hrun. rewrite Hrun.
  destruct (proj2 (run_loop_next loads max_retries plan
                     (fst (reduce_chunk c1)) true 1%nat)
              ltac:(unfold max_retries; lia) c3 ev3 E3) as (later & ->).
  destruct (close_stream (set_stop_threads true c3)) as [c4 closed].
  eexists c4, _, (later ++ closed). split; [reflexivity|].
  cbn. reflexivity.
Qed.

Lemma quit_key_restarts_session_witness :
  exists c ev later,
    run loads_rejection (S (S max_retries)) false
      (fun _ => mkSchedule true false [KeyPress (KeyChar "q"); MainPoll])
    = Some (c, ev)
    /\ ev = [Print (LogUsingChunk 4096); Print (LogReducingChunk 2048);
             Print (LogReconnecting 1 1); Sleep 1;
             Print (LogUsingChunk 2048)] ++ later.
Proof.
  apply (quit_key_restarts_session loads_rejection
           (fun _ => mkSchedule true false [KeyPress (KeyChar "q"); MainPoll])
           "q" [] eq_refl eq_refl eq_refl).
Defined.


(* ================================================================== *)
(** * The corrupted checksum of the rejection tests *)

(** [wrong_checksum = (correct_checksum + 12345) & 0xFFFFFFFF] in
    [send_corrupted_chunk]. *)
Definition wrong_checksum (correct_checksum : Z) : Z :=
  Z.land (correct_checksum + 12345) 0xFFFFFFFF.

(** The checksum the rejection tests send in place of the right one is a
    32-bit value that differs from the right one for every audio buffer. *)
Theorem wrong_checksum_is_wrong (audio_data : bytes) (correct_checksum : Z) :
  checksum_int16 audio_data = Ok correct_checksum ->
  wrong_checksum correct_checksum <> correct_checksum
  /\ 0 <= wrong_checksum correct_checksum < 2 ^ 32.
Proof.
  intros H. pose proof (checksum_int16_ok_even _ _ H) as E.
  rewrite (checksum_int16_even _ E) in H.
  apply Ok_inj in H. subst correct_checksum.
  pose proof (checksum16_spec_range audio_data) as Hr.
  unfold wrong_checksum. rewrite land_mask32.
  change (2 ^ 32) with 4294967296 in *.
  pose proof (Z.mod_pos_bound (checksum16_spec audio_data + 12345)
                4294967296 ltac:(lia)) as Hm.
  split; [|lia].
  destruct (Z_lt_ge_dec (checksum16_spec audio_data + 12345) 4294967296)
    as [Hlt | Hge].
  - rewrite Z.mod_small by lia. lia.
  - replace (checksum16_spec audio_data + 12345)
      with (checksum16_spec audio_data + 12345 - 4294967296
            + 1 * 4294967296) by lia.
    rewrite Z.mod_add by lia. rewrite Z.mod_small by lia. lia.
Qed.

Lemma wrong_checksum_is_wrong_witness :
  wrong_checksum 4294967295 <> 4294967295.
Proof.
  apply (wrong_checksum_is_wrong [xff; xff] 4294967295). reflexivity.
Defined.

(* ================================================================== *)
(** * The corrupted audio of the corruption test *)

(** The bytes literal of the test, [b'\\x00']: a backslash, [x], [0], [0];
    four bytes, not one. *)
Definition escaped_nul : bytes := [x5c; x78; x30; x30].

(** [corrupted_audio[100:110] = b'\\x00' * 10] on a copy of the audio. *)
Definition corrupt_audio (original_audio : bytes) : bytes :=
  firstn 100 original_audio
  ++ List.concat (repeat escaped_nul 10)
  ++ skipn 110 original_audio.

(** The slice assignment of the corruption test does not overwrite ten
    bytes in place: it puts forty bytes where ten were.  On an audio of at
    least 110 bytes the result is 30 bytes longer (15 samples more than
    the [dataLength] the test sends), its first 100 bytes are those of
    the original, and what followed byte 110 comes 30 bytes later. *)
Theorem corrupt_audio_grows (original_audio : bytes) :
  (110 <= List.length original_audio)%nat ->
  List.length (corrupt_audio original_audio)
  = (List.length original_audio + 30)%nat
  /\ len (corrupt_audio original_audio) / 2 = len original_audio / 2 + 15
  /\ firstn 100 (corrupt_audio original_audio) = firstn 100 original_audio
  /\ skipn 140 (corrupt_audio original_audio) = skipn 110 original_audio.
Proof.
  intros H. unfold corrupt_audio.
  assert (L1 : List.length (firstn 100 original_audio) = 100%nat)
    by (rewrite length_firstn; lia).
  assert (L2 : List.length (List.concat (repeat escaped_nul 10)) = 40%nat)
    by reflexivity.
  assert (L3 : List.length (skipn 110 original_audio)
               = (List.length original_audio - 110)%nat)
    by apply length_skipn.
  assert (Hlen : List.length
                   (firstn 100 original_audio
                    ++ List.concat (repeat escaped_nul 10)
                    ++ skipn 110 original_audio)
                 = (List.length original_audio + 30)%nat).
  { rewrite !length_app, L1, L2, L3. lia. }
  split; [exact Hlen|]. split.
  { unfold len. rewrite Hlen, Nat2Z.inj_add.
    change (Z.of_nat 30) with (15 * 2). rewrite Z.div_add by lia.
    reflexivity. }
  split.
  { rewrite <- L1 at 1. apply firstn_length_app. }
  rewrite app_assoc.
  replace 140%nat
    with (List.length (firstn 100 original_audio
                       ++ List.concat (repeat escaped_nul 10)))
    by (rewrite length_app, L1, L2; reflexivity).
  apply skipn_length_app.
Qed.

Lemma corrupt_audio_grows_witness :
  List.length (corrupt_audio (repeat x01 (Z.to_nat 120))) = 150%nat.
Proof.
  assert (H : (110 <= List.length (repeat x01 (Z.to_nat 120)))%nat)
    by (rewrite repeat_length; vm_compute; lia).
  destruct (corrupt_audio_grows (repeat x01 (Z.to_nat 120)) H) as [L _].
  rewrite L, repeat_length. reflexivity.
Defined.
